(** * urlparser: canonical repository references from registry metadata

    A shallow embedding of the Go package [internal/urlparser] and the
    verification of its specified properties.

    Go strings are byte strings: they are modelled as lists of 8-bit
    characters, indices are byte offsets, [None] stands for the index -1,
    and a slice [s[a:b]] is [firstn]/[skipn].  The functions of Go's
    [strings] package that the code calls are written out the way the
    package documents them.  [TrimSpace], [ToLower] and the one regular
    expression are modelled on ASCII text, where they act byte by byte: a
    byte above 127 is taken as it is, neither white space, nor a letter,
    nor a word character.

    The package has two loops without a bound, in [removeSchemes] and
    around [ReplaceAll]; each is a function with fuel, and a lemma shows
    that the fuel given is enough for the loop to leave by its own test.
    A Go map is the list of its entries; where the code ranges over a map
    the order of the list is the order of the range: the result of
    [canonicalizeHost] is shown not to depend on it, and what is proved of
    [ParseFromMap] holds for every order. *)

From Stdlib Require Import Ascii String.
From Stdlib Require Import List Bool Arith Lia Permutation.
Import ListNotations.

Local Open Scope char_scope.
Local Open Scope list_scope.
Local Open Scope nat_scope.

(** ** Byte strings *)

Definition str := list ascii.

(** A Go string literal. *)
Definition lit (s : string) : str := list_ascii_of_string s.
Arguments lit : simpl never.

Definition chr (n : nat) : ascii := ascii_of_nat n.

Fixpoint str_eqb (a b : str) : bool :=
  match a, b with
  | [], [] => true
  | x :: a', y :: b' => Ascii.eqb x y && str_eqb a' b'
  | _, _ => false
  end.

Definition is_empty (s : str) : bool :=
  match s with [] => true | _ => false end.

(** ** The [strings] package *)

Module Strings.

(** [strings.HasPrefix(s, p)] *)
Fixpoint HasPrefix (s p : str) {struct p} : bool :=
  match p, s with
  | [], _ => true
  | _ :: _, [] => false
  | y :: p', x :: s' => Ascii.eqb x y && HasPrefix s' p'
  end.

(** [strings.HasSuffix(s, p)]: [len(s) >= len(p) && s[len(s)-len(p):] == p] *)
Definition HasSuffix (s p : str) : bool :=
  (length p <=? length s) && str_eqb (skipn (length s - length p) s) p.

(** [strings.TrimPrefix(s, p)] *)
Definition TrimPrefix (s p : str) : str :=
  if HasPrefix s p then skipn (length p) s else s.

(** [strings.TrimSuffix(s, p)] *)
Definition TrimSuffix (s p : str) : str :=
  if HasSuffix s p then firstn (length s - length p) s else s.

(** [strings.Index(s, sub)]; [None] stands for Go's -1. *)
Fixpoint Index (s sub : str) : option nat :=
  if HasPrefix s sub then Some 0
  else match s with
       | [] => None
       | _ :: s' => option_map S (Index s' sub)
       end.

(** [strings.LastIndex(s, sub)] *)
Fixpoint LastIndex (s sub : str) : option nat :=
  match s with
  | [] => if HasPrefix s sub then Some 0 else None
  | _ :: s' =>
      match LastIndex s' sub with
      | Some i => Some (S i)
      | None => if HasPrefix s sub then Some 0 else None
      end
  end.

(** [strings.Contains(s, sub)] *)
Definition Contains (s sub : str) : bool :=
  match Index s sub with Some _ => true | None => false end.

(** [strings.IndexByte(chars, c) != -1] *)
Definition ContainsByte (chars : str) (c : ascii) : bool :=
  existsb (Ascii.eqb c) chars.

(** [strings.TrimLeft(s, cutset)] *)
Fixpoint TrimLeft (s cutset : str) : str :=
  match s with
  | c :: s' => if ContainsByte cutset c then TrimLeft s' cutset else s
  | [] => []
  end.

(** The white space of [strings.TrimSpace] on ASCII text:
    ['\t'], ['\n'], ['\v'], ['\f'], ['\r'] and [' ']. *)
Definition isSpace (c : ascii) : bool :=
  let n := nat_of_ascii c in
  ((9 <=? n) && (n <=? 13)) || (n =? 32).

Fixpoint TrimSpaceLeft (s : str) : str :=
  match s with
  | c :: s' => if isSpace c then TrimSpaceLeft s' else s
  | [] => []
  end.

(** [strings.TrimSpace(s)] *)
Definition TrimSpace (s : str) : str :=
  rev (TrimSpaceLeft (rev (TrimSpaceLeft s))).

Definition lowerByte (c : ascii) : ascii :=
  let n := nat_of_ascii c in
  if (65 <=? n) && (n <=? 90) then ascii_of_nat (n + 32) else c.

(** [strings.ToLower(s)] *)
Definition ToLower (s : str) : str := map lowerByte s.

(** One pass of [strings.ReplaceAll(s, "//", "/")]: the non-overlapping
    occurrences, from the left. *)
Fixpoint ReplaceAllSlashes (s : str) : str :=
  match s with
  | c1 :: s1 =>
      match s1 with
      | c2 :: s2 =>
          if Ascii.eqb c1 "/" && Ascii.eqb c2 "/"
          then "/" :: ReplaceAllSlashes s2
          else c1 :: ReplaceAllSlashes s1
      | [] => s
      end
  | [] => []
  end.

End Strings.

Import Strings.

(** ** Package-level tables *)

(** [knownHosts]: known hosts and their canonical base. *)
Definition knownHosts : list (str * str) :=
  [ (lit "github.com",            lit "https://github.com");
    (lit "github.io",             lit "https://github.com");
    (lit "github.org",            lit "https://github.com");
    (lit "githubusercontent.com", lit "https://github.com");
    (lit "gitlab.com",            lit "https://gitlab.com");
    (lit "bitbucket.org",         lit "https://bitbucket.org");
    (lit "bitbucket.com",         lit "https://bitbucket.org");
    (lit "codeberg.org",          lit "https://codeberg.org");
    (lit "sr.ht",                 lit "https://sr.ht");
    (lit "sourceforge.net",       lit "https://sourceforge.net") ].

(** [knownSubdomains]: the subdomains stripped for known hosts. *)
Definition knownSubdomainTokens : list str :=
  [ lit "www"; lit "ssh"; lit "raw"; lit "git"; lit "wiki"; lit "svn" ].

(** A Go map read: the value stored under [key], if any. *)
Fixpoint map_get {V : Type} (m : list (str * V)) (key : str) : option V :=
  match m with
  | [] => None
  | (k, v) :: m' => if str_eqb k key then Some v else map_get m' key
  end.

(** [knownSubdomains[s]]: a missing key reads as [false]. *)
Definition knownSubdomains (s : str) : bool :=
  existsb (str_eqb s) knownSubdomainTokens.

(** [subdomainPrefixes], as [init] fills it: ["www.github.com" -> "github.com"]
    for every known host and every subdomain. *)
Definition subdomainPrefixes : list (str * str) :=
  flat_map
    (fun hd : str * str =>
       map (fun subdomain => (subdomain ++ lit "." ++ fst hd, fst hd))
           knownSubdomainTokens)
    knownHosts.

(** ** The cleaner *)

(** The characters [Clean] removes everywhere: space, tab, newline,
    carriage return, the two quotes, and [><()[]]. *)
Definition noiseChars : str :=
  map chr [32; 9; 10; 13; 34; 39; 62; 60; 40; 41; 91; 93].

(** [removeChars] removes all characters in [chars] from [s]. *)
Definition removeChars (s chars : str) : str :=
  filter (fun c => negb (ContainsByte chars c)) s.

(** [trimGitSuffix] removes a [.git] or [.git/] suffix case-insensitively. *)
Definition trimGitSuffix (s : str) : str :=
  if (4 <=? length s)
     && str_eqb (ToLower (skipn (length s - 4) s)) (lit ".git")
  then firstn (length s - 4) s
  else if (5 <=? length s)
          && str_eqb (ToLower (skipn (length s - 5) s)) (lit ".git/")
  then firstn (length s - 5) s
  else s.

Definition schemes : list str :=
  map lit
    [ "git+https://"; "git+https:";
      "git+ssh://"; "git+ssh:";
      "https://"; "https:";
      "http://"; "http:";
      "git://"; "git:";
      "ssh://"; "ssh:";
      "svn://"; "svn:";
      "hg://"; "hg:";
      "scm://"; "scm:" ]%string.

(** [removeScheme] removes a single URL scheme prefix. *)
Definition removeScheme (s : str) : str :=
  let sLower := ToLower s in
  match find (HasPrefix sLower) schemes with
  | Some scheme => skipn (length scheme) s
  | None => s
  end.

(** The body of the loop of [removeSchemes]. *)
Definition removeSchemesPass (s : str) : str :=
  let sLower := ToLower s in
  let s :=
    if HasPrefix sLower (lit "scm:git:") then skipn 8 s
    else if HasPrefix sLower (lit "scm:svn:") then skipn 8 s
    else if HasPrefix sLower (lit "scm:hg:") then skipn 7 s
    else s in
  let s := removeScheme s in
  let s := if HasPrefix (ToLower s) (lit "git//") then skipn 5 s else s in
  TrimLeft s (lit "/").

(** The loop [for { prev := s; ...; if s == prev { break } }], bounded. *)
Fixpoint removeSchemesLoop (fuel : nat) (s : str) : str :=
  match fuel with
  | 0 => s
  | S fuel' =>
      let s' := removeSchemesPass s in
      if str_eqb s' s then s' else removeSchemesLoop fuel' s'
  end.

(** [removeSchemes] strips all scheme prefixes.  A pass that changes the
    text shortens it, so [len(s) + 1] passes reach the [break]
    ([removeSchemes_break] below). *)
Definition removeSchemes (s : str) : str :=
  removeSchemesLoop (S (length s)) s.

(** [removeAuth] removes [user:pass@] or [user@]. *)
Definition removeAuth (s : str) : str :=
  let schemeEnd :=
    match Index s (lit "://") with Some idx => idx + 3 | None => 0 end in
  let rest := skipn schemeEnd s in
  match LastIndex rest (lit "@") with
  | None => s
  | Some idx =>
      let slashIdx := Index rest (lit "/") in
      if match slashIdx with Some si => si <=? idx | None => false end
      then s
      else
        let afterAt := skipn (idx + 1) rest in
        if negb (Contains afterAt (lit "."))
           && (match Index afterAt (lit ":"), Index afterAt (lit "/") with
               | None, _ => true
               | Some colonIdx, Some slashInAfter => slashInAfter <=? colonIdx
               | Some _, None => false
               end)
        then s
        else firstn schemeEnd s ++ skipn (idx + 1) rest
  end.

(** [stripKnownSubdomains] removes [www.], [git.] and the like from known
    hosts. *)
Definition stripKnownSubdomains (s : str) : str :=
  if negb (Contains s (lit ".")) then s
  else
    let end_ := length s in
    let end_ :=
      match Index s (lit "/") with
      | Some idx => if idx <? end_ then idx else end_
      | None => end_
      end in
    let end_ :=
      match Index s (lit ":") with
      | Some idx => if idx <? end_ then idx else end_
      | None => end_
      end in
    let hostPart := ToLower (firstn end_ s) in
    match map_get subdomainPrefixes hostPart with
    | Some domain => domain ++ skipn end_ s
    | None => s
    end.

Definition isDigit (c : ascii) : bool :=
  let n := nat_of_ascii c in (48 <=? n) && (n <=? 57).

(** [normalizeColonSeparator] handles the [git@host:path] format. *)
Definition normalizeColonSeparator (s : str) : str :=
  match Index s (lit ":") with
  | None => s
  | Some idx =>
      let afterColon := skipn (idx + 1) s in
      match afterColon with
      | c :: _ =>
          if Ascii.eqb c "/" then s
          else if isDigit c then s
          else firstn idx s ++ lit "/" ++ afterColon
      | [] => firstn idx s ++ lit "/" ++ afterColon
      end
  end.

(** The loop [for strings.Contains(s, "//") { s = ReplaceAll(s, "//", "/") }],
    bounded. *)
Fixpoint collapseSlashesLoop (fuel : nat) (s : str) : str :=
  match fuel with
  | 0 => s
  | S fuel' =>
      if Contains s (lit "//")
      then collapseSlashesLoop fuel' (ReplaceAllSlashes s)
      else s
  end.

(** Every pass that finds [//] shortens the text, so [len(s)] passes are
    enough ([collapseSlashes_done] below). *)
Definition collapseSlashes (s : str) : str :=
  collapseSlashesLoop (length s) s.

(** [Clean] removes common noise from git URLs. *)
Definition Clean (rawURL : str) : str :=
  let s := TrimSpace rawURL in
  if is_empty s then []
  else
    let s := removeChars s noiseChars in
    let s := match Index s (lit "#") with Some idx => firstn idx s | None => s end in
    let s := match Index s (lit "?") with Some idx => firstn idx s | None => s end in
    let s := removeAuth s in
    let s := TrimPrefix s (lit "=") in
    let s := removeSchemes s in
    let s := stripKnownSubdomains s in
    let s := trimGitSuffix s in
    let s := TrimSuffix s (lit "/") in
    let s := normalizeColonSeparator s in
    collapseSlashes s.

(** ** The extractor *)

(** [[\w.-]] *)
Definition isHostChar (c : ascii) : bool :=
  let n := nat_of_ascii c in
  isDigit c
  || ((65 <=? n) && (n <=? 90))
  || ((97 <=? n) && (n <=? 122))
  || (n =? 95) || (n =? 46) || (n =? 45).

(** The groups of a match of [githubioRe]: the whole match and the two
    captures. *)
Record submatch : Type := mkSubmatch {
  match0 : str;
  match1 : str;
  match2 : str
}.

(** One alternative [tld] of [(io|com|org)], then [(?:$|/)], at the start
    of [s]: the top-level domain as written and the text matched. *)
Definition reAlt (s tld : str) : option (str * str) :=
  if HasPrefix (ToLower s) tld then
    let n := length tld in
    match skipn n s with
    | [] => Some (firstn n s, firstn n s)
    | c :: _ =>
        if Ascii.eqb c "/" then Some (firstn n s, firstn (S n) s) else None
    end
  else None.

(** [(io|com|org)(?:$|/)] at the start of [s], the alternatives in order. *)
Definition reTld (s : str) : option (str * str) :=
  match reAlt s (lit "io") with
  | Some r => Some r
  | None =>
      match reAlt s (lit "com") with
      | Some r => Some r
      | None => reAlt s (lit "org")
      end
  end.

(** [\.github\.(io|com|org)(?:$|/)] at the start of [s]. *)
Definition reTail (s : str) : option (str * str) :=
  if HasPrefix (ToLower s) (lit ".github.") then
    match reTld (skipn 8 s) with
    | Some (tld, m) => Some (tld, firstn 8 s ++ m)
    | None => None
    end
  else None.

(** [([\w.-]+)] followed by the tail, the group greedy: a longer group is
    tried before a shorter one. *)
Fixpoint reGroup (s : str) : option submatch :=
  match s with
  | [] => None
  | c :: s' =>
      if isHostChar c then
        match reGroup s' with
        | Some m => Some (mkSubmatch (c :: match0 m) (c :: match1 m) (match2 m))
        | None =>
            match reTail s' with
            | Some (tld, m) => Some (mkSubmatch (c :: m) [c] tld)
            | None => None
            end
        end
      else None
  end.

(** [githubioRe.FindStringSubmatch(s)] for
    [(?i)^([\w.-]+)\.github\.(io|com|org)(?:$|/)]; [None] is Go's nil. *)
Definition githubioRe_FindStringSubmatch (s : str) : option submatch :=
  reGroup s.

(** [githubioRe.ReplaceAllString(s, "")]: the pattern is anchored at the
    start of the text, so at most one match is removed. *)
Definition githubioRe_ReplaceAllString_empty (s : str) : str :=
  match githubioRe_FindStringSubmatch s with
  | Some m => skipn (length (match0 m)) s
  | None => s
  end.

(** [ExtractPath] returns just the path portion after the domain. *)
Definition ExtractPath (rawURL : str) : str :=
  let s := Clean rawURL in
  if is_empty s then []
  else
    match githubioRe_FindStringSubmatch s with
    | Some m =>
        let user := match1 m in
        let rest := githubioRe_ReplaceAllString_empty s in
        if negb (is_empty rest) then user ++ lit "/" ++ rest else []
    | None =>
        match Index s (lit "/") with
        | None => []
        | Some idx =>
            if idx =? length s - 1 then []
            else collapseSlashes (skipn (idx + 1) s)
        end
    end.

(** [ExtractOwnerRepo] returns just the owner/repo portion. *)
Definition ExtractOwnerRepo (rawURL : str) : str :=
  let path := ExtractPath rawURL in
  if is_empty path then []
  else
    match Index path (lit "/") with
    | None => []
    | Some firstSlash =>
        let owner := firstn firstSlash path in
        let rest := skipn (firstSlash + 1) path in
        if is_empty owner || is_empty rest then []
        else
          let repo :=
            match Index rest (lit "/") with
            | None => rest
            | Some secondSlash => firstn secondSlash rest
            end in
          if is_empty repo then [] else owner ++ lit "/" ++ repo
    end.

(** [ExtractHost] returns the host portion of the URL. *)
Definition ExtractHost (rawURL : str) : str :=
  let s := Clean rawURL in
  if is_empty s then []
  else
    match githubioRe_FindStringSubmatch s with
    | Some m => lit "github." ++ match2 m
    | None =>
        match Index s (lit "/") with
        | None => s
        | Some idx => firstn idx s
        end
    end.

(** ** The host canonicalizer *)

(** The loop [for domain, c := range knownHosts] of [canonicalizeHost],
    over the entries in the order [order] in which the map yields them. *)
Fixpoint canonicalizeHostScan (order : list (str * str)) (hostLower : str)
  : option (str * str) :=
  match order with
  | [] => None
  | (domain, c) :: order' =>
      if HasSuffix hostLower (lit "." ++ domain) then
        let subdomain := TrimSuffix hostLower (lit "." ++ domain) in
        if knownSubdomains subdomain then Some (c, domain)
        else Some (c, hostLower)
      else canonicalizeHostScan order' hostLower
  end.

Definition canonicalizeHostIn (order : list (str * str)) (host : str)
  : str * str :=
  let hostLower := ToLower host in
  match map_get knownHosts hostLower with
  | Some c => (c, hostLower)
  | None =>
      match canonicalizeHostScan order hostLower with
      | Some r => r
      | None => ([], host)
      end
  end.

(** [canonicalizeHost] returns the canonical base URL and the normalized
    host.  Go leaves the order of a map range open; the result does not
    depend on it ([canonicalizeHost_any_order] below), so the table's
    written order is taken. *)
Definition canonicalizeHost (host : str) : str * str :=
  canonicalizeHostIn knownHosts host.

(** [IsKnownHost] tells whether the URL is from a recognized hosting
    service. *)
Definition IsKnownHost (rawURL : str) : bool :=
  let host := ToLower (ExtractHost rawURL) in
  if is_empty host then false
  else
    match map_get knownHosts host with
    | Some _ => true
    | None =>
        existsb (fun dc : str * str => HasSuffix host (lit "." ++ fst dc))
                knownHosts
    end.

(** ** The public operations *)

(** [Parse] attempts to parse a URL and return a canonical form. *)
Definition Parse (rawURL : str) : str :=
  let ownerRepo := ExtractOwnerRepo rawURL in
  if is_empty ownerRepo then []
  else
    let host := ExtractHost rawURL in
    if is_empty host then []
    else
      let '(canonical, normalizedHost) := canonicalizeHost host in
      if negb (is_empty canonical) then canonical ++ lit "/" ++ ownerRepo
      else lit "https://" ++ normalizedHost ++ lit "/" ++ ownerRepo.

(** [Normalize] cleans a git URL and ensures it has an https scheme. *)
Definition Normalize (rawURL : str) : str :=
  let s := TrimSpace rawURL in
  if is_empty s then []
  else
    let s := removeAuth s in
    let s := removeSchemes s in
    let s := trimGitSuffix s in
    let s := TrimSuffix s (lit "/") in
    let s := normalizeColonSeparator s in
    if negb (HasPrefix s (lit "http://")) && negb (HasPrefix s (lit "https://"))
    then lit "https://" ++ s
    else s.

(** [CanonicalURL] returns the canonical URL for known hosts, or the empty
    string. *)
Definition CanonicalURL (rawURL : str) : str :=
  if negb (IsKnownHost rawURL) then [] else Parse rawURL.

(** [RepoURL] represents a parsed repository URL. *)
Record RepoURL : Type := mkRepoURL {
  Host : str;
  Owner : str;
  Repo : str
}.

(** [ParseURL] is like [Parse] but returns structured data; [None] is the
    nil pointer.  A non-empty [ownerRepo] always has its [/]
    ([ParseURL_Some] below), so the last case is never taken. *)
Definition ParseURL (rawURL : str) : option RepoURL :=
  let ownerRepo := ExtractOwnerRepo rawURL in
  if is_empty ownerRepo then None
  else
    match Index ownerRepo (lit "/") with
    | Some idx =>
        let host := ExtractHost rawURL in
        Some (mkRepoURL host (firstn idx ownerRepo) (skipn (idx + 1) ownerRepo))
    | None => None
    end.

(** The method [String] of [RepoURL] returns the canonical URL form. *)
Definition RepoURL_String (r : option RepoURL) : str :=
  match r with
  | None => []
  | Some r =>
      let '(canonical, normalizedHost) := canonicalizeHost (Host r) in
      if negb (is_empty canonical)
      then canonical ++ lit "/" ++ Owner r ++ lit "/" ++ Repo r
      else lit "https://" ++ normalizedHost ++ lit "/" ++ Owner r ++ lit "/" ++ Repo r
  end.

(** The method [OwnerRepo] of [RepoURL] returns ["owner/repo"]. *)
Definition RepoURL_OwnerRepo (r : option RepoURL) : str :=
  match r with
  | None => []
  | Some r => Owner r ++ lit "/" ++ Repo r
  end.

Definition defaultPriorityKeys : list str :=
  map lit [ "repository"; "Repository"; "source"; "Source";
            "source_code"; "Source Code"; "Code" ]%string.

(** The first loop of [ParseFromMap]: the priority keys in order. *)
Fixpoint parsePriority (m : list (str * str)) (keys : list str) : option str :=
  match keys with
  | [] => None
  | key :: keys' =>
      match map_get m key with
      | Some val =>
          if negb (is_empty val) && negb (is_empty (Parse val))
          then Some (Parse val)
          else parsePriority m keys'
      | None => parsePriority m keys'
      end
  end.

(** The second loop of [ParseFromMap]: every value of the map, in the order
    the range yields them. *)
Fixpoint parseFallback (entries : list (str * str)) : str :=
  match entries with
  | [] => []
  | (_, val) :: entries' =>
      let result := Parse val in
      if negb (is_empty result) then
        if Contains val (lit "/sponsors") then parseFallback entries'
        else result
      else parseFallback entries'
  end.

(** [ParseFromMap] extracts a repository URL from common field names in a
    map.  The map is its list of entries in the order a range yields them;
    [m[key]] reads the entry of that key. *)
Definition ParseFromMap (m : list (str * str)) (priorityKeys : list str) : str :=
  let priorityKeys :=
    match priorityKeys with [] => defaultPriorityKeys | _ => priorityKeys end in
  match parsePriority m priorityKeys with
  | Some result => result
  | None => parseFallback m
  end.

(** [FirstRepoURL] returns the first URL of the list that parses as a
    repository. *)
Fixpoint FirstRepoURL (urls : list str) : str :=
  match urls with
  | [] => []
  | u :: urls' =>
      if is_empty u then FirstRepoURL urls'
      else
        let result := Parse u in
        if negb (is_empty result) then result else FirstRepoURL urls'
  end.

(** ** Package core: [repository.go] *)

(** A value of type [interface{}] as [extractRepoURL] distinguishes them:
    nil, a string, a [map[string]interface{}], a [[]interface{}], a
    [[]string], and a value of any other type. *)
#[local] Unset Elimination Schemes.
Inductive value : Type :=
| VNil
| VString (s : str)
| VMap (r : list (str * value))
| VArray (r : list value)
| VStrings (r : list str)
| VOther.
#[local] Set Elimination Schemes.

Definition repoURLKeys : list str := [lit "url"; lit "git"; lit "http"].

(** The loop over the keys in the map case of [extractRepoURL];
    [r[key].(string)] succeeds when the key is there with a string. *)
Fixpoint repoURLFromKeys (r : list (str * value)) (keys : list str) : str :=
  match keys with
  | [] => []
  | key :: keys' =>
      match map_get r key with
      | Some (VString url) =>
          if negb (is_empty url) && negb (is_empty (Parse url))
          then Parse url
          else repoURLFromKeys r keys'
      | _ => repoURLFromKeys r keys'
      end
  end.

(** The loop of the [[]string] case of [extractRepoURL]. *)
Fixpoint repoURLFromStrings (r : list str) : str :=
  match r with
  | [] => []
  | url :: r' =>
      if negb (is_empty (Parse url)) then Parse url
      else repoURLFromStrings r'
  end.

(** [extractRepoURL] extracts a repository URL from the formats of the
    registries' responses. *)
Fixpoint extractRepoURL (v : value) : str :=
  match v with
  | VNil => []
  | VString r => Parse r
  | VMap r => repoURLFromKeys r repoURLKeys
  | VArray r =>
      (fix items (l : list value) : str :=
         match l with
         | [] => []
         | item :: l' =>
             let url := extractRepoURL item in
             if negb (is_empty url) then url else items l'
         end) r
  | VStrings r => repoURLFromStrings r
  | VOther => []
  end.

Definition ExtractRepoURL (v : value) : str := extractRepoURL v.

(** [ExtractRepoURLWithFallback] tries several values and returns the
    first valid repository URL. *)
Fixpoint ExtractRepoURLWithFallback (values : list value) : str :=
  match values with
  | [] => []
  | v :: values' =>
      let url := ExtractRepoURL v in
      if negb (is_empty url) then url
      else ExtractRepoURLWithFallback values'
  end.

(** ** Notions of the specification *)


(** The keys [ParseFromMap] tries: the caller's, or the default ones. *)
Definition effectiveKeys (priorityKeys : list str) : list str :=
  match priorityKeys with [] => defaultPriorityKeys | _ => priorityKeys end.

(** [r] is what is left of [s] after dropping a prefix. *)
Definition suffixOf (r s : str) : Prop := exists a, s = a ++ r.

(** The top-level domains of the GitHub-Pages pattern. *)
Definition pagesTlds : list str := [lit "io"; lit "com"; lit "org"].

(** What a match [m] of [githubioRe] on [s] looks like: a non-empty run of
    host characters, [.github.] and a top-level domain in any letter case,
    and then the end of the text or a [/]. *)
Definition reShape (s : str) (m : submatch) : Prop :=
  exists g sl rest,
    s = match1 m ++ g ++ match2 m ++ sl ++ rest
    /\ match0 m = match1 m ++ g ++ match2 m ++ sl
    /\ ToLower g = lit ".github."
    /\ In (ToLower (match2 m)) pagesTlds
    /\ match1 m <> []
    /\ Forall (fun c => isHostChar c = true) (match1 m)
    /\ ((sl = [] /\ rest = []) \/ sl = ["/"]).

(** Letters, the bytes [ToLower] may touch or produce. *)
Definition isLetter (c : ascii) : bool :=
  let n := nat_of_ascii c in
  ((65 <=? n) && (n <=? 90)) || ((97 <=? n) && (n <=? 122)).


(** The characters that survive the first steps of [Clean]: none of
    [noiseChars], no [#] and no [?]. *)
Definition okChar (c : ascii) : bool :=
  negb (ContainsByte noiseChars c)
  && negb (Ascii.eqb c "#") && negb (Ascii.eqb c "?").

(** The text before the first [/]: the host of a cleaned text. *)
Definition hostPart (s : str) : str :=
  match Index s (lit "/") with Some idx => firstn idx s | None => s end.

Definition is_none {A : Type} (o : option A) : bool :=
  match o with None => true | Some _ => false end.


(** The base [Parse] and [String] put before [/owner/repo]: the canonical
    base of the host, or [https://] and the host. *)
Definition canonicalBase (host : str) : str :=
  let '(canonical, normalizedHost) := canonicalizeHost host in
  if negb (is_empty canonical) then canonical
  else lit "https://" ++ normalizedHost.

(** A host that a second [Parse] finds again as it is: not empty, without
    [/], rebuilt by [canonicalBase], not [subdomain.knownDomain] and not a
    GitHub-Pages host. *)
Definition hostSettled (h : str) : bool :=
  negb (is_empty h)
  && negb (Contains h (lit "/"))
  && str_eqb (canonicalBase h) (lit "https://" ++ h)
  && is_none (map_get subdomainPrefixes (ToLower h))
  && forallb (fun tld => negb (HasSuffix (ToLower h) (lit ".github." ++ tld)))
             pagesTlds.

(** No text occurs twice in a list: the keys of a Go map. *)
Fixpoint distinct (l : list str) : bool :=
  match l with
  | [] => true
  | x :: l' => negb (existsb (str_eqb x) l') && distinct l'
  end.

(** * Verification *)

(** ** Byte strings and the [strings] functions *)

Ltac unlit := unfold lit in *; cbn [list_ascii_of_string] in *.

Lemma str_eqb_refl (a : str) : str_eqb a a = true.
Proof.
  induction a as [|x a IH]; simpl; [reflexivity|].
  now rewrite Ascii.eqb_refl, IH.
Qed.

Lemma str_eqb_eq (a b : str) : str_eqb a b = true <-> a = b.
Proof.
  split; [|intros ->; apply str_eqb_refl].
  revert b; induction a as [|x a IH]; intros [|y b]; simpl; try easy.
  rewrite andb_true_iff, Ascii.eqb_eq. intros [-> H]. f_equal. now apply IH.
Qed.

Lemma str_eqb_neq (a b : str) : str_eqb a b = false <-> a <> b.
Proof.
  rewrite <- str_eqb_eq. destruct (str_eqb a b); split; congruence.
Qed.

Lemma is_empty_true (s : str) : is_empty s = true <-> s = [].
Proof. destruct s; simpl; split; congruence. Qed.

Lemma is_empty_false (s : str) : is_empty s = false <-> s <> [].
Proof. destruct s; simpl; split; congruence. Qed.

Lemma HasPrefix_spec (s p : str) :
  HasPrefix s p = true <-> exists r, s = p ++ r.
Proof.
  revert s; induction p as [|y p IH]; intros s; simpl.
  - split; [intros _; now exists s | reflexivity].
  - destruct s as [|x s].
    + split; [discriminate | intros [r Hr]; discriminate].
    + rewrite andb_true_iff, Ascii.eqb_eq, IH. split.
      * intros [-> [r ->]]. now exists r.
      * intros [r Hr]. injection Hr as -> ->. split; [reflexivity | now exists r].
Qed.


Lemma HasSuffix_spec (s p : str) :
  HasSuffix s p = true <-> exists a, s = a ++ p.
Proof.
  unfold HasSuffix. rewrite andb_true_iff, Nat.leb_le, str_eqb_eq. split.
  - intros [_ H]. exists (firstn (length s - length p) s).
    rewrite <- H at 2. symmetry. apply firstn_skipn.
  - intros [a ->]. rewrite length_app. split; [lia|].
    replace (length a + length p - length p) with (length a) by lia.
    now rewrite skipn_app, skipn_all, Nat.sub_diag.
Qed.

Lemma HasSuffix_app (a p : str) : HasSuffix (a ++ p) p = true.
Proof. apply HasSuffix_spec. now exists a. Qed.


Lemma TrimSuffix_app (a p : str) : TrimSuffix (a ++ p) p = a.
Proof.
  unfold TrimSuffix. rewrite HasSuffix_app, length_app.
  replace (length a + length p - length p) with (length a) by lia.
  now rewrite firstn_app, firstn_all, Nat.sub_diag, app_nil_r.
Qed.



(** Two ways of ending the same text: one ending is a suffix of the other. *)
Lemma app_eq_suffix (a x b y : str) :
  a ++ x = b ++ y -> HasSuffix x y = true \/ HasSuffix y x = true.
Proof.
  revert b; induction a as [|c a IH]; intros b H; simpl in H.
  - left. apply HasSuffix_spec. now exists b.
  - destruct b as [|d b]; simpl in H.
    + right. apply HasSuffix_spec. now exists (c :: a).
    + injection H as _ H. now apply IH in H.
Qed.

(** *** [Index] of a single byte *)

Lemma Index_char_cons (c x : ascii) (s : str) :
  Index (x :: s) [c] =
  if Ascii.eqb x c then Some 0 else option_map S (Index s [c]).
Proof. simpl. now rewrite andb_true_r. Qed.

Lemma Index_char_None (s : str) (c : ascii) :
  Index s [c] = None <-> ~ In c s.
Proof.
  induction s as [|x s IH]; [simpl; tauto|].
  rewrite Index_char_cons. destruct (Ascii.eqb_spec x c) as [->|Hne].
  - split; [discriminate | intros H; exfalso; apply H; now left].
  - destruct (Index s [c]) eqn:E; simpl.
    + split; [discriminate|]. intros H. exfalso.
      assert (~ In c s) as H' by (intros ?; apply H; now right).
      apply IH in H'. discriminate.
    + split; [|reflexivity]. intros _ [?|?]; [congruence|]. now apply IH.
Qed.

Lemma Index_char_Some (s : str) (c : ascii) (i : nat) :
  Index s [c] = Some i ->
  s = firstn i s ++ c :: skipn (i + 1) s /\ ~ In c (firstn i s) /\ i < length s.
Proof.
  revert i; induction s as [|x s IH]; intros i; [discriminate|].
  rewrite Index_char_cons. destruct (Ascii.eqb_spec x c) as [->|Hne].
  - intros [= <-]. simpl. repeat split; [tauto | lia].
  - destruct (Index s [c]) as [j|] eqn:E; [|discriminate].
    intros [= <-]. destruct (IH j eq_refl) as (H1 & H2 & H3).
    simpl. repeat split; [now rewrite <- H1 | | lia].
    intros [?|?]; [congruence | tauto].
Qed.

Lemma Index_char_app (a b : str) (c : ascii) :
  ~ In c a -> Index (a ++ c :: b) [c] = Some (length a).
Proof.
  induction a as [|x a IH]; intros H.
  - simpl. now rewrite Ascii.eqb_refl.
  - change ((x :: a) ++ c :: b) with (x :: (a ++ c :: b)).
    rewrite Index_char_cons. destruct (Ascii.eqb_spec x c) as [->|Hne].
    + exfalso. apply H. now left.
    + rewrite IH; [reflexivity|]. intros ?. apply H. now right.
Qed.

Lemma Contains_char (s : str) (c : ascii) :
  Contains s [c] = false <-> ~ In c s.
Proof.
  unfold Contains. rewrite <- Index_char_None.
  destruct (Index s [c]); split; congruence.
Qed.

Lemma Contains_char_true (s : str) (c : ascii) :
  Contains s [c] = true <-> In c s.
Proof.
  destruct (Contains s [c]) eqn:E.
  - split; [|reflexivity]. intros _.
    destruct (in_dec ascii_dec c s) as [H|H]; [assumption|].
    apply Contains_char in H. congruence.
  - apply Contains_char in E. split; [discriminate | tauto].
Qed.

Lemma LastIndex_char_None (s : str) (c : ascii) :
  ~ In c s -> LastIndex s [c] = None.
Proof.
  induction s as [|x s IH]; intros H; [reflexivity|].
  simpl. rewrite IH by (intros ?; apply H; now right).
  destruct (Ascii.eqb_spec x c) as [->|Hne]; [|reflexivity].
  exfalso. apply H. now left.
Qed.

(** ** The shape of an owner/repo pair *)

Lemma ExtractOwnerRepo_shape (rawURL : str) :
  ExtractOwnerRepo rawURL <> [] ->
  exists owner repo tail,
    ExtractOwnerRepo rawURL = owner ++ "/" :: repo
    /\ ExtractPath rawURL = owner ++ "/" :: repo ++ tail
    /\ owner <> [] /\ repo <> []
    /\ ~ In "/" owner /\ ~ In "/" repo.
Proof.
  unfold ExtractOwnerRepo. set (path := ExtractPath rawURL). unlit.
  destruct (is_empty path); [congruence|].
  destruct (Index path ["/"]) as [i|] eqn:Ei; [|congruence].
  destruct (Index_char_Some _ _ _ Ei) as (Hp & Hown & _).
  set (owner := firstn i path) in *. set (rest := skipn (i + 1) path) in *.
  destruct (is_empty owner) eqn:Eo; [simpl; congruence|].
  destruct (is_empty rest) eqn:Er; [simpl; congruence|]. simpl.
  apply is_empty_false in Eo, Er.
  destruct (Index rest ["/"]) as [j|] eqn:Ej.
  - destruct (Index_char_Some _ _ _ Ej) as (Hr & Hrepo & _).
    destruct (is_empty (firstn j rest)) eqn:Ere; [congruence|]. intros _.
    apply is_empty_false in Ere.
    exists owner, (firstn j rest), ("/" :: skipn (j + 1) rest).
    repeat split; try assumption. now rewrite Hp at 1; rewrite Hr at 1.
  - apply Index_char_None in Ej.
    destruct (is_empty rest) eqn:Ere; [congruence|]. intros _.
    exists owner, rest, []. rewrite app_nil_r. repeat split; assumption.
Qed.

(** ** C9: a RepoURL has an owner and a repository name *)

Lemma ParseURL_fields (rawURL : str) (r : RepoURL) :
  ParseURL rawURL = Some r ->
  Host r = ExtractHost rawURL
  /\ ExtractOwnerRepo rawURL = Owner r ++ "/" :: Repo r
  /\ Owner r <> [] /\ Repo r <> []
  /\ ~ In "/" (Owner r) /\ ~ In "/" (Repo r).
Proof.
  unfold ParseURL. destruct (is_empty (ExtractOwnerRepo rawURL)) eqn:E;
    [discriminate|].
  apply is_empty_false in E.
  destruct (ExtractOwnerRepo_shape _ E) as (o & p & t & -> & _ & Ho & Hp & Hso & Hsp).
  unlit. rewrite Index_char_app by assumption.
  intros [= <-]. simpl.
  rewrite firstn_app, firstn_all, Nat.sub_diag, app_nil_r.
  rewrite skipn_app, skipn_all2 by lia.
  replace (length o + 1 - length o) with 1 by lia. simpl.
  repeat split; assumption.
Qed.

(** C9.  Whenever [ParseURL] returns a [RepoURL], its [Owner] and its [Repo]
    are non-empty, whatever the input. *)
Theorem C9_ParseURL_owner_repo_nonempty (rawURL : str) (r : RepoURL) :
  ParseURL rawURL = Some r -> Owner r <> [] /\ Repo r <> [].
Proof.
  intros H. apply ParseURL_fields in H. tauto.
Qed.

Lemma C9_ParseURL_owner_repo_nonempty_witness :
  ParseURL (lit "https://github.com/owner/repo")
    = Some (mkRepoURL (lit "github.com") (lit "owner") (lit "repo"))
  /\ lit "owner" <> [] /\ lit "repo" <> [].
Proof.
  split; [vm_compute; reflexivity|].
  exact (C9_ParseURL_owner_repo_nonempty
           (lit "https://github.com/owner/repo")
           (mkRepoURL (lit "github.com") (lit "owner") (lit "repo"))
           eq_refl).
Defined.

(** ** C4: [Normalize] on text that is not blank *)




(** ** C5 and C6: worked inputs *)

(** C5.  A vendor prefix, a scheme, credentials, a [.git] suffix and a
    fragment, all at once. *)
Theorem C5_Parse_compound :
  Parse (lit "scm:git:https://michaelkrog@github.com/michaelkrog/filter4j.git#x")
  = lit "https://github.com/michaelkrog/filter4j".
Proof. vm_compute. reflexivity. Qed.

(** C6.  A host outside the table passes through: its [git.] subdomain is
    kept, and [IsKnownHost] is false. *)
Theorem C6_unknown_host_passthrough :
  Parse (lit "https://git.example.com/owner/repo")
  = lit "https://git.example.com/owner/repo"
  /\ IsKnownHost (lit "https://git.example.com/owner/repo") = false.
Proof. split; vm_compute; reflexivity. Qed.

(** ** C8: the fallback scan of [ParseFromMap] *)

Lemma parseFallback_origin (entries : list (str * str)) :
  parseFallback entries = []
  \/ exists key val,
       In (key, val) entries
       /\ Contains val (lit "/sponsors") = false
       /\ parseFallback entries = Parse val.
Proof.
  induction entries as [|[k v] entries IH]; [now left|]. simpl.
  destruct (is_empty (Parse v)) eqn:Ep; simpl.
  - destruct IH as [IH|(key & val & Hin & Hs & Hr)]; [now left|].
    right. exists key, val. auto.
  - destruct (Contains v (lit "/sponsors")) eqn:Es.
    + destruct IH as [IH|(key & val & Hin & Hs & Hr)]; [now left|].
      right. exists key, val. auto.
    + right. exists k, v. auto.
Qed.

Lemma parseFallback_all_sponsors (entries : list (str * str)) :
  (forall key val, In (key, val) entries -> Parse val <> [] ->
                   Contains val (lit "/sponsors") = true) ->
  parseFallback entries = [].
Proof.
  induction entries as [|[k v] entries IH]; intros H; [reflexivity|]. simpl.
  assert (IH' : parseFallback entries = [])
    by (apply IH; intros key val Hin; apply (H key val); now right).
  destruct (is_empty (Parse v)) eqn:Ep; simpl; [exact IH'|].
  apply is_empty_false in Ep. now rewrite (H k v (or_introl eq_refl) Ep).
Qed.

Lemma parsePriority_fails (m : list (str * str)) (keys : list str) :
  (forall key val, In key keys -> map_get m key = Some val -> Parse val = []) ->
  parsePriority m keys = None.
Proof.
  induction keys as [|key keys IH]; intros H; [reflexivity|]. simpl.
  assert (IH' : parsePriority m keys = None)
    by (apply IH; intros k v Hin; apply H; now right).
  destruct (map_get m key) as [val|] eqn:Eg; [|exact IH'].
  rewrite (H key val (or_introl eq_refl) Eg). simpl.
  now rewrite andb_false_r.
Qed.

(** C8.  When no priority key yields a successful [Parse], the result of
    [ParseFromMap] is empty or is the [Parse] of a value of the map that
    does not contain [/sponsors]; and it is empty when every value that
    parses contains [/sponsors]. *)
Theorem C8_ParseFromMap_skips_sponsors
  (m : list (str * str)) (priorityKeys : list str) :
  (forall key val, In key (effectiveKeys priorityKeys) ->
                   map_get m key = Some val -> Parse val = []) ->
  (ParseFromMap m priorityKeys = []
   \/ exists key val,
        In (key, val) m
        /\ Contains val (lit "/sponsors") = false
        /\ ParseFromMap m priorityKeys = Parse val)
  /\ ((forall key val, In (key, val) m -> Parse val <> [] ->
                       Contains val (lit "/sponsors") = true) ->
      ParseFromMap m priorityKeys = []).
Proof.
  intros Hprio. unfold ParseFromMap.
  fold (effectiveKeys priorityKeys).
  rewrite (parsePriority_fails _ _ Hprio). split.
  - apply parseFallback_origin.
  - apply parseFallback_all_sponsors.
Qed.

(** ** Substrings *)

Lemma Index_unfold (s sub : str) :
  Index s sub =
  if HasPrefix s sub then Some 0
  else match s with [] => None | _ :: s' => option_map S (Index s' sub) end.
Proof. destruct s; reflexivity. Qed.

Lemma Contains_cons (x : ascii) (s sub : str) :
  Contains (x :: s) sub = HasPrefix (x :: s) sub || Contains s sub.
Proof.
  unfold Contains. rewrite (Index_unfold (x :: s)).
  destruct (HasPrefix (x :: s) sub); [reflexivity|].
  now destruct (Index s sub).
Qed.

Lemma Contains_spec (s sub : str) :
  Contains s sub = true <-> exists a b, s = a ++ sub ++ b.
Proof.
  induction s as [|x s IH].
  - unfold Contains. rewrite Index_unfold.
    destruct (HasPrefix [] sub) eqn:E.
    + split; [intros _|reflexivity]. apply HasPrefix_spec in E as [r Hr].
      now exists [], r.
    + split; [discriminate|]. intros (a & b & H).
      destruct a; [|discriminate]. simpl in H.
      assert (HasPrefix [] sub = true) by (apply HasPrefix_spec; now exists b).
      congruence.
  - rewrite Contains_cons, orb_true_iff, IH, HasPrefix_spec. split.
    + intros [[r Hr]|(a & b & ->)]; [now exists [], r | now exists (x :: a), b].
    + intros ([|y a] & b & H); [left; now exists b|].
      injection H as -> ->. right. now exists a, b.
Qed.



(** ** The two loops terminate *)

Lemma ReplaceAllSlashes_cons2 (c1 c2 : ascii) (s2 : str) :
  ReplaceAllSlashes (c1 :: c2 :: s2) =
  if Ascii.eqb c1 "/" && Ascii.eqb c2 "/"
  then "/" :: ReplaceAllSlashes s2
  else c1 :: ReplaceAllSlashes (c2 :: s2).
Proof. reflexivity. Qed.

Lemma ReplaceAllSlashes_length (n : nat) (s : str) :
  length s <= n ->
  length (ReplaceAllSlashes s) <= length s
  /\ (Contains s (lit "//") = true -> length (ReplaceAllSlashes s) < length s).
Proof.
  revert s; induction n as [|n IH]; intros s Hn.
  - destruct s; [|simpl in Hn; lia]. split; [reflexivity | discriminate].
  - destruct s as [|c1 [|c2 s2]]; [split; [reflexivity | discriminate] | |].
    + split; [reflexivity|]. unlit. rewrite Contains_cons. simpl.
      now rewrite andb_false_r.
    + rewrite ReplaceAllSlashes_cons2. unlit.
      destruct (Ascii.eqb c1 "/" && Ascii.eqb c2 "/") eqn:E.
      * destruct (IH s2) as [H1 _]; [simpl in Hn; lia|].
        cbn [length] in *. split; [lia | intros _; lia].
      * destruct (IH (c2 :: s2)) as [H1 H2]; [simpl in Hn |- *; lia|].
        cbn [length] in *. split; [lia|].
        rewrite Contains_cons. cbn [HasPrefix]. rewrite andb_true_r, E.
        cbn [orb]. intros H. apply H2 in H. lia.
Qed.

Lemma collapseSlashesLoop_done (fuel : nat) (s : str) :
  length s <= fuel ->
  Contains (collapseSlashesLoop fuel s) (lit "//") = false.
Proof.
  revert s; induction fuel as [|fuel IH]; intros s Hs.
  - destruct s; [reflexivity | simpl in Hs; lia].
  - simpl. destruct (Contains s (lit "//")) eqn:E; [|exact E].
    apply IH. destruct (ReplaceAllSlashes_length _ s (le_n _)) as [_ H].
    specialize (H E). lia.
Qed.

(** The loop of [Clean] and [ExtractPath] ends with no [//] left. *)
Lemma collapseSlashes_done (s : str) :
  Contains (collapseSlashes s) (lit "//") = false.
Proof. apply collapseSlashesLoop_done. apply le_n. Qed.

Lemma collapseSlashes_id (s : str) :
  Contains s (lit "//") = false -> collapseSlashes s = s.
Proof.
  unfold collapseSlashes. destruct (length s); simpl; [reflexivity|].
  now intros ->.
Qed.

Lemma suffixOf_refl (s : str) : suffixOf s s.
Proof. now exists []. Qed.

Lemma suffixOf_trans (r s t : str) : suffixOf r s -> suffixOf s t -> suffixOf r t.
Proof. intros [a ->] [b ->]. exists (b ++ a). now rewrite app_assoc. Qed.

Lemma suffixOf_skipn (n : nat) (s : str) : suffixOf (skipn n s) s.
Proof. exists (firstn n s). symmetry. apply firstn_skipn. Qed.

Lemma suffixOf_TrimLeft (s cutset : str) : suffixOf (TrimLeft s cutset) s.
Proof.
  induction s as [|c s IH]; simpl; [apply suffixOf_refl|].
  destruct (ContainsByte cutset c); [|apply suffixOf_refl].
  destruct IH as [a Ha]. exists (c :: a). simpl. now f_equal.
Qed.

Lemma suffixOf_length (r s : str) :
  suffixOf r s -> length r <= length s /\ (length r = length s -> r = s).
Proof.
  intros [a ->]. rewrite length_app. split; [lia|].
  intros H. destruct a; [reflexivity | simpl in H; lia].
Qed.

Lemma suffixOf_Forall (P : ascii -> Prop) (r s : str) :
  suffixOf r s -> Forall P s -> Forall P r.
Proof. intros [a ->] H. now apply Forall_app in H. Qed.

Lemma suffixOf_removeScheme (s : str) : suffixOf (removeScheme s) s.
Proof.
  unfold removeScheme. destruct (find _ schemes);
    [apply suffixOf_skipn | apply suffixOf_refl].
Qed.

Lemma suffixOf_removeSchemesPass (s : str) : suffixOf (removeSchemesPass s) s.
Proof.
  unfold removeSchemesPass.
  eapply suffixOf_trans; [apply suffixOf_TrimLeft|].
  eapply suffixOf_trans;
    [match goal with |- suffixOf (if ?b then _ else _) _ =>
       destruct b; [apply suffixOf_skipn | apply suffixOf_refl] end|].
  eapply suffixOf_trans; [apply suffixOf_removeScheme|].
  repeat match goal with |- suffixOf (if ?b then _ else _) _ =>
    destruct b; [apply suffixOf_skipn|] end.
  apply suffixOf_refl.
Qed.

Lemma removeSchemesLoop_spec (fuel : nat) (s : str) :
  length s < fuel ->
  suffixOf (removeSchemesLoop fuel s) s
  /\ removeSchemesPass (removeSchemesLoop fuel s) = removeSchemesLoop fuel s.
Proof.
  revert s; induction fuel as [|fuel IH]; intros s Hs; [lia|].
  simpl. pose proof (suffixOf_removeSchemesPass s) as Hsuf.
  destruct (str_eqb (removeSchemesPass s) s) eqn:E.
  - apply str_eqb_eq in E. rewrite E. split; [apply suffixOf_refl | exact E].
  - apply str_eqb_neq in E. destruct (suffixOf_length _ _ Hsuf) as [H1 H2].
    destruct (IH (removeSchemesPass s)) as [H3 H4].
    + destruct (Nat.eq_dec (length (removeSchemesPass s)) (length s)) as [e|e];
        [now apply H2 in e | lia].
    + split; [eapply suffixOf_trans; eassumption | exact H4].
Qed.

(** The loop of [removeSchemes] reaches its [break]: a further pass leaves
    the result unchanged. *)
Lemma removeSchemes_break (s : str) :
  removeSchemesPass (removeSchemes s) = removeSchemes s.
Proof. apply removeSchemesLoop_spec. unfold lt. apply le_n. Qed.

Lemma suffixOf_removeSchemes (s : str) : suffixOf (removeSchemes s) s.
Proof. apply removeSchemesLoop_spec. unfold lt. apply le_n. Qed.


(** ** Lower case *)

Lemma lowerByte_other (c : ascii) : isLetter c = false -> lowerByte c = c.
Proof.
  destruct c as [[] [] [] [] [] [] [] []]; vm_compute; congruence.
Qed.

Lemma lowerByte_inv (c d : ascii) :
  lowerByte c = d -> isLetter d = false -> c = d.
Proof.
  intros <-.
  destruct c as [[] [] [] [] [] [] [] []]; vm_compute; congruence.
Qed.

Lemma ToLower_app (a b : str) : ToLower (a ++ b) = ToLower a ++ ToLower b.
Proof. apply map_app. Qed.

Lemma ToLower_length (s : str) : length (ToLower s) = length s.
Proof. apply length_map. Qed.

Lemma ToLower_In (s : str) (d : ascii) :
  isLetter d = false -> (In d (ToLower s) <-> In d s).
Proof.
  intros Hd. unfold ToLower. rewrite in_map_iff. split.
  - intros (c & Hc & Hin). now rewrite <- (lowerByte_inv _ _ Hc Hd).
  - intros Hin. exists d. split; [now apply lowerByte_other | assumption].
Qed.

Lemma ToLower_split (s a b : str) :
  ToLower s = a ++ b ->
  exists a' b', s = a' ++ b' /\ ToLower a' = a /\ ToLower b' = b.
Proof.
  intros H. exists (firstn (length a) s), (skipn (length a) s).
  split; [symmetry; apply firstn_skipn|].
  unfold ToLower in *. rewrite <- firstn_map, <- skipn_map, H.
  rewrite firstn_app, firstn_all, Nat.sub_diag, app_nil_r.
  now rewrite skipn_app, skipn_all, Nat.sub_diag.
Qed.

Lemma HasPrefix_ToLower (s p : str) :
  HasPrefix (ToLower s) p = true ->
  exists a b, s = a ++ b /\ ToLower a = p.
Proof.
  intros H. apply HasPrefix_spec in H as [r Hr].
  apply ToLower_split in Hr as (a & b & -> & Ha & _). now exists a, b.
Qed.


(** ** The GitHub-Pages pattern *)

Lemma firstn_S_app (a b : str) (c : ascii) :
  firstn (S (length a)) (a ++ c :: b) = a ++ [c].
Proof. induction a as [|x a IH]; [reflexivity|]. simpl. now f_equal. Qed.

Lemma reAlt_shape (s t tld m : str) :
  reAlt s t = Some (tld, m) ->
  ToLower tld = t
  /\ exists sl rest,
       s = tld ++ sl ++ rest /\ m = tld ++ sl
       /\ ((sl = [] /\ rest = []) \/ sl = ["/"]).
Proof.
  unfold reAlt. destruct (HasPrefix (ToLower s) t) eqn:E; [|discriminate].
  apply HasPrefix_ToLower in E as (a & b & -> & Ha).
  assert (Hl : length t = length a) by (now rewrite <- Ha, ToLower_length).
  rewrite Hl, skipn_app, skipn_all, Nat.sub_diag.
  rewrite (firstn_app (length a)), firstn_all, Nat.sub_diag.
  rewrite skipn_O, firstn_O, app_nil_r. cbn [app].
  destruct b as [|c b].
  - intros [= <- <-]. split; [exact Ha|]. exists [], [].
    rewrite !app_nil_r. auto.
  - destruct (Ascii.eqb_spec c "/") as [->|]; [|discriminate].
    rewrite firstn_S_app.
    intros [= <- <-]. split; [exact Ha|]. exists ["/"], b. auto.
Qed.

Lemma reTld_shape (s tld m : str) :
  reTld s = Some (tld, m) ->
  In (ToLower tld) pagesTlds
  /\ exists sl rest,
       s = tld ++ sl ++ rest /\ m = tld ++ sl
       /\ ((sl = [] /\ rest = []) \/ sl = ["/"]).
Proof.
  unfold reTld, pagesTlds.
  destruct (reAlt s (lit "io")) as [r|] eqn:E1.
  { intros [= ->]. apply reAlt_shape in E1 as [-> H]. simpl. auto. }
  destruct (reAlt s (lit "com")) as [r|] eqn:E2.
  { intros [= ->]. apply reAlt_shape in E2 as [-> H]. simpl. auto. }
  intros E3. apply reAlt_shape in E3 as [-> H]. simpl. auto.
Qed.

Lemma reTail_shape (s tld m : str) :
  reTail s = Some (tld, m) ->
  In (ToLower tld) pagesTlds
  /\ exists g sl rest,
       s = g ++ tld ++ sl ++ rest /\ m = g ++ tld ++ sl
       /\ ToLower g = lit ".github."
       /\ ((sl = [] /\ rest = []) \/ sl = ["/"]).
Proof.
  unfold reTail. destruct (HasPrefix (ToLower s) (lit ".github.")) eqn:E;
    [|discriminate].
  apply HasPrefix_ToLower in E as (g & b & -> & Hg).
  assert (Hl : length g = 8) by (now rewrite <- ToLower_length, Hg).
  rewrite <- Hl, skipn_app, skipn_all, firstn_app, firstn_all, Nat.sub_diag.
  simpl. rewrite app_nil_r.
  destruct (reTld b) as [[tld' m']|] eqn:Et; [|discriminate].
  intros [= <- <-]. apply reTld_shape in Et as (Hin & sl & rest & -> & -> & Hsl).
  split; [exact Hin|]. exists g, sl, rest. auto.
Qed.

Lemma reGroup_shape (s : str) (m : submatch) :
  reGroup s = Some m -> reShape s m.
Proof.
  revert m; induction s as [|c s IH]; intros m; [discriminate|].
  simpl. destruct (isHostChar c) eqn:Ec; [|discriminate].
  destruct (reGroup s) as [m'|] eqn:Eg.
  - intros [= <-]. destruct (IH m' eq_refl)
      as (g & sl & rest & Hs & H0 & Hg & Ht & _ & Hf & Hsl).
    exists g, sl, rest. simpl. repeat split; try assumption.
    + now rewrite Hs at 1.
    + now rewrite H0.
    + discriminate.
    + now constructor.
  - destruct (reTail s) as [[tld mm]|] eqn:Et; [|discriminate].
    intros [= <-].
    apply reTail_shape in Et as (Hin & g & sl & rest & -> & -> & Hg & Hsl).
    exists g, sl, rest. simpl. repeat split; try assumption.
    + discriminate.
    + now repeat constructor.
Qed.

(** ** C7: a host alone, or a host and one path segment *)





Lemma Parse_no_owner_repo (rawURL : str) :
  ExtractOwnerRepo rawURL = [] -> Parse rawURL = [].
Proof. unfold Parse. now intros ->. Qed.




(** ** C10: [ParseURL] against [Parse] *)

Lemma ParseURL_Some (rawURL : str) :
  ExtractOwnerRepo rawURL <> [] -> exists r, ParseURL rawURL = Some r.
Proof.
  intros E. unfold ParseURL.
  destruct (ExtractOwnerRepo_shape _ E) as (o & p & t & Eo & _ & _ & _ & Hso & _).
  apply is_empty_false in E. rewrite E, Eo. unlit.
  rewrite Index_char_app by assumption. eauto.
Qed.

(** X28.  On every input with a non-empty host the two pipelines agree:
    [ParseURL] returns nil exactly when [Parse] returns the empty string,
    and [String] of its result is the result of [Parse]. *)
Lemma ParseURL_agrees_with_host (rawURL : str) :
  ExtractHost rawURL <> [] ->
  (ParseURL rawURL = None <-> Parse rawURL = [])
  /\ RepoURL_String (ParseURL rawURL) = Parse rawURL.
Proof.
  intros Hh.
  destruct (is_empty (ExtractOwnerRepo rawURL)) eqn:E.
  - unfold ParseURL, Parse. rewrite E. simpl. tauto.
  - apply is_empty_false in E. destruct (ParseURL_Some _ E) as [r Hr].
    rewrite Hr. destruct (ParseURL_fields _ _ Hr) as (H1 & H2 & _).
    assert (Hs : RepoURL_String (Some r) = Parse rawURL).
    { unfold RepoURL_String, Parse. rewrite H1.
      apply is_empty_false in E, Hh. rewrite E, Hh, H2.
      destruct (canonicalizeHost (ExtractHost rawURL)) as [c n].
      unlit. now destruct (negb (is_empty c)). }
    split; [|exact Hs]. split; [discriminate|]. intros Hp. exfalso.
    unfold Parse in Hp. apply is_empty_false in E, Hh. rewrite E, Hh in Hp.
    destruct (canonicalizeHost (ExtractHost rawURL)) as [c n].
    destruct (negb (is_empty c)); [destruct c | ]; discriminate.
Qed.

(** C10 fails on [:a/b]: the cleaned text [/a/b] has no host, [Parse]
    returns the empty string, and [ParseURL] returns a [RepoURL] with an
    empty [Host] whose [String] is [https:///a/b]. *)
Theorem C10_ParseURL_disagrees_without_host :
  Clean (lit ":a/b") = lit "/a/b"
  /\ Parse (lit ":a/b") = []
  /\ ParseURL (lit ":a/b") = Some (mkRepoURL [] (lit "a") (lit "b"))
  /\ RepoURL_String (ParseURL (lit ":a/b")) = lit "https:///a/b".
Proof. repeat split; vm_compute; reflexivity. Qed.

(** ** The known-host table *)

Lemma map_get_Some_In {V : Type} (m : list (str * V)) (k : str) (v : V) :
  map_get m k = Some v -> In (k, v) m.
Proof.
  induction m as [|[k' v'] m IH]; simpl; [discriminate|].
  destruct (str_eqb k' k) eqn:E.
  - apply str_eqb_eq in E. intros [= ->]. left. now rewrite E.
  - intros H. right. now apply IH.
Qed.

Lemma map_get_None {V : Type} (m : list (str * V)) (k : str) :
  (forall e, In e m -> fst e <> k) -> map_get m k = None.
Proof.
  induction m as [|[k' v'] m IH]; intros H; [reflexivity|]. simpl.
  destruct (str_eqb k' k) eqn:E.
  - apply str_eqb_eq in E. now destruct (H (k', v') (or_introl eq_refl)).
  - apply IH. intros e He. apply H. now right.
Qed.

Lemma distinct_NoDup (l : list str) : distinct l = true -> NoDup l.
Proof.
  induction l as [|x l IH]; [constructor|]. simpl.
  rewrite andb_true_iff, negb_true_iff. intros [H1 H2].
  constructor; [|now apply IH]. intros Hin.
  assert (E : existsb (str_eqb x) l = true)
    by (apply existsb_exists; exists x; split; [assumption | apply str_eqb_refl]).
  congruence.
Qed.

(** Both tables are maps: no key occurs twice. *)
Lemma tables_keys_distinct :
  NoDup (map fst knownHosts) /\ NoDup (map fst subdomainPrefixes).
Proof. split; apply distinct_NoDup; vm_compute; reflexivity. Qed.

(** The facts about the table that the loop relies on, checked entry by
    entry: the domains are in lower case, every base is non-empty, no
    domain is another domain or a subdomain of one, and equal domains have
    equal bases. *)
Lemma knownHosts_checked :
  forallb
    (fun e1 : str * str =>
       str_eqb (ToLower (fst e1)) (fst e1)
       && negb (is_empty (snd e1))
       && forallb
            (fun e2 : str * str =>
               negb (HasSuffix (fst e1) (lit "." ++ fst e2))
               && (negb (HasSuffix (lit "." ++ fst e1) (lit "." ++ fst e2))
                   || (str_eqb (fst e1) (fst e2) && str_eqb (snd e1) (snd e2))))
            knownHosts)
    knownHosts = true.
Proof. vm_compute. reflexivity. Qed.

Lemma knownHosts_entry (d c : str) :
  In (d, c) knownHosts ->
  ToLower d = d /\ c <> []
  /\ forall d' c', In (d', c') knownHosts ->
       HasSuffix d (lit "." ++ d') = false
       /\ (HasSuffix (lit "." ++ d) (lit "." ++ d') = true -> d = d' /\ c = c').
Proof.
  intros H. pose proof knownHosts_checked as K.
  rewrite forallb_forall in K. specialize (K _ H).
  cbv beta in K. cbn [fst snd] in K.
  rewrite !andb_true_iff, str_eqb_eq, negb_true_iff, is_empty_false in K.
  destruct K as [[K1 K2] K3]. split; [assumption|]. split; [assumption|].
  intros d' c' H'. rewrite forallb_forall in K3. specialize (K3 _ H').
  cbv beta in K3. cbn [fst snd] in K3.
  rewrite andb_true_iff, orb_true_iff, andb_true_iff, !negb_true_iff,
    !str_eqb_eq in K3.
  destruct K3 as [K3 K4]. split; [assumption|].
  intros S. destruct K4 as [K4|K4]; [congruence | assumption].
Qed.

(** A host is under at most one known domain. *)
Lemma known_suffix_unique (h d1 c1 d2 c2 : str) :
  In (d1, c1) knownHosts -> In (d2, c2) knownHosts ->
  HasSuffix h (lit "." ++ d1) = true -> HasSuffix h (lit "." ++ d2) = true ->
  d1 = d2 /\ c1 = c2.
Proof.
  intros I1 I2 H1 H2.
  apply HasSuffix_spec in H1 as [a Ha], H2 as [b Hb]. rewrite Ha in Hb.
  destruct (knownHosts_entry _ _ I1) as (_ & _ & K1).
  destruct (knownHosts_entry _ _ I2) as (_ & _ & K2).
  destruct (app_eq_suffix _ _ _ _ Hb) as [S|S].
  - now apply (K1 _ _ I2).
  - destruct (proj2 (K2 _ _ I1) S). split; congruence.
Qed.

Lemma canonicalizeHostScan_found (order : list (str * str)) (h d c : str) :
  incl order knownHosts -> In (d, c) order ->
  HasSuffix h (lit "." ++ d) = true ->
  canonicalizeHostScan order h =
  Some (if knownSubdomains (TrimSuffix h (lit "." ++ d)) then (c, d) else (c, h)).
Proof.
  intros Hincl Hin Hsuf.
  induction order as [|[d' c'] order IH]; [destruct Hin|].
  cbn [canonicalizeHostScan].
  destruct (HasSuffix h (lit "." ++ d')) eqn:E.
  - assert (I' : In (d', c') knownHosts) by (apply Hincl; now left).
    assert (I : In (d, c) knownHosts) by (apply Hincl; exact Hin).
    destruct (known_suffix_unique h d' c' d c I' I E Hsuf) as [-> ->].
    now destruct (knownSubdomains _).
  - destruct Hin as [[= -> ->]|Hin]; [congruence|].
    apply IH; [|assumption]. intros e He. apply Hincl. now right.
Qed.

Lemma canonicalizeHostScan_none (order : list (str * str)) (h : str) :
  (forall e, In e order -> HasSuffix h (lit "." ++ fst e) = false) ->
  canonicalizeHostScan order h = None.
Proof.
  induction order as [|[d c] order IH]; intros H; [reflexivity|].
  cbn [canonicalizeHostScan].
  pose proof (H (d, c) (or_introl eq_refl)) as Hd. cbn [fst] in Hd.
  rewrite Hd. apply IH.
  intros e He. apply H. now right.
Qed.

(** X9.  The result of [canonicalizeHost] does not depend on the order in which
    the range over [knownHosts] yields the entries. *)
Lemma canonicalizeHost_any_order (order : list (str * str)) (host : str) :
  Permutation order knownHosts ->
  canonicalizeHostIn order host = canonicalizeHost host.
Proof.
  intros P. unfold canonicalizeHost, canonicalizeHostIn.
  destruct (map_get knownHosts (ToLower host)); [reflexivity|].
  set (h := ToLower host).
  destruct (existsb (fun e : str * str => HasSuffix h (lit "." ++ fst e))
                    knownHosts) eqn:E.
  - apply existsb_exists in E as ([d c] & Hin & Hs). simpl in Hs.
    rewrite (canonicalizeHostScan_found order h d c), 
            (canonicalizeHostScan_found knownHosts h d c); auto.
    + apply incl_refl.
    + intros e He. now apply (Permutation_in _ P).
    + now apply (Permutation_in _ (Permutation_sym P)).
  - assert (N : forall e, In e knownHosts ->
                          HasSuffix h (lit "." ++ fst e) = false).
    { intros e He. destruct (HasSuffix h (lit "." ++ fst e)) eqn:Es;
        [|reflexivity].
      rewrite <- E. symmetry. apply existsb_exists. now exists e. }
    rewrite !canonicalizeHostScan_none; auto.
    intros e He. apply N. now apply (Permutation_in _ P).
Qed.

(** A host under a known domain: [prefix.domain]. *)
Lemma canonicalizeHost_under_known (prefix d c : str) :
  In (d, c) knownHosts ->
  canonicalizeHost (prefix ++ lit "." ++ d) =
  if knownSubdomains (ToLower prefix) then (c, d)
  else (c, ToLower prefix ++ lit "." ++ d).
Proof.
  intros Hin. unfold canonicalizeHost, canonicalizeHostIn.
  destruct (knownHosts_entry _ _ Hin) as (Hd & _ & _).
  assert (Hl : ToLower (prefix ++ lit "." ++ d) = ToLower prefix ++ lit "." ++ d)
    by (rewrite !ToLower_app, Hd; reflexivity).
  rewrite Hl, map_get_None.
  - rewrite (canonicalizeHostScan_found knownHosts _ d c);
      [| apply incl_refl | assumption | apply HasSuffix_app].
    now rewrite TrimSuffix_app.
  - intros [k v] Hk E. simpl in E.
    destruct (knownHosts_entry _ _ Hk) as (_ & _ & K).
    destruct (K _ _ Hin) as [K1 _]. rewrite E, HasSuffix_app in K1.
    discriminate.
Qed.

(** ** C3: a host under a known domain with an unrecognized subdomain *)




Lemma C8_ParseFromMap_skips_sponsors_witness :
  ParseFromMap [(lit "homepage", lit "https://github.com/sponsors/foo")] [] = [].
Proof.
  refine (proj2 (C8_ParseFromMap_skips_sponsors
                   [(lit "homepage", lit "https://github.com/sponsors/foo")] [] _) _).
  - intros key val Hk Hg.
    assert (E : map_get [(lit "homepage", lit "https://github.com/sponsors/foo")] key = None).
    { apply map_get_None. intros e [<-|[]]. simpl.
      unfold effectiveKeys in Hk. 
      repeat (destruct Hk as [<-|Hk]; [vm_compute; discriminate|]).
      destruct Hk. }
    rewrite E in Hg. discriminate.
  - intros key val [[= <- <-]|[]] _. vm_compute. reflexivity.
Defined.

(** ** What [Clean] leaves in a text *)

Lemma Forall_firstn' {A : Type} (P : A -> Prop) (n : nat) (l : list A) :
  Forall P l -> Forall P (firstn n l).
Proof.
  intros H. rewrite <- (firstn_skipn n l) in H. now apply Forall_app in H.
Qed.

Lemma Forall_skipn' {A : Type} (P : A -> Prop) (n : nat) (l : list A) :
  Forall P l -> Forall P (skipn n l).
Proof.
  intros H. rewrite <- (firstn_skipn n l) in H. now apply Forall_app in H.
Qed.

Lemma Forall_ReplaceAllSlashes (P : ascii -> Prop) (n : nat) (s : str) :
  length s <= n -> Forall P s -> Forall P (ReplaceAllSlashes s).
Proof.
  revert s; induction n as [|n IH]; intros s Hn H.
  - destruct s; [constructor | simpl in Hn; lia].
  - destruct s as [|c1 [|c2 s2]]; [constructor | exact H |].
    rewrite ReplaceAllSlashes_cons2.
    inversion H as [|? ? H1 H2]; subst. inversion H2 as [|? ? H3 H4]; subst.
    simpl in Hn.
    destruct (Ascii.eqb c1 "/" && Ascii.eqb c2 "/") eqn:E.
    + apply andb_true_iff in E as [E _]. apply Ascii.eqb_eq in E. subst c1.
      constructor; [assumption|]. apply IH; [lia | assumption].
    + constructor; [assumption|]. apply IH; [simpl; lia | assumption].
Qed.

Lemma Forall_collapseSlashes (P : ascii -> Prop) (s : str) :
  Forall P s -> Forall P (collapseSlashes s).
Proof.
  unfold collapseSlashes. generalize (length s) as fuel. intros fuel.
  revert s; induction fuel as [|fuel IH]; intros s H; [exact H|]. simpl.
  destruct (Contains s (lit "//")); [|exact H].
  apply IH. now apply (Forall_ReplaceAllSlashes P (length s)).
Qed.

Section Preserved.

(** A property of characters that [/] has and the characters of the
    known domains have. *)
Variable P : ascii -> Prop.
Hypothesis P_slash : P "/".
Hypothesis P_domains : forall d c, In (d, c) knownHosts -> Forall P d.

Lemma Forall_removeAuth (s : str) : Forall P s -> Forall P (removeAuth s).
Proof.
  intros H. unfold removeAuth.
  destruct (LastIndex _ _); [|assumption].
  repeat match goal with |- Forall P (if ?b then _ else _) =>
    destruct b; [assumption|] end.
  apply Forall_app. split; [now apply Forall_firstn'|].
  now apply Forall_skipn', Forall_skipn'.
Qed.

Lemma Forall_removeSchemes (s : str) : Forall P s -> Forall P (removeSchemes s).
Proof. apply suffixOf_Forall, suffixOf_removeSchemes. Qed.

Lemma subdomainPrefixes_In (k v : str) :
  In (k, v) subdomainPrefixes ->
  exists sub c, In sub knownSubdomainTokens /\ In (v, c) knownHosts
                /\ k = sub ++ lit "." ++ v.
Proof.
  unfold subdomainPrefixes. rewrite in_flat_map.
  intros ([d c] & Hin & H). apply in_map_iff in H as (sub & [= <- <-] & Hs).
  now exists sub, c.
Qed.

Lemma Forall_stripKnownSubdomains (s : str) :
  Forall P s -> Forall P (stripKnownSubdomains s).
Proof.
  intros H. unfold stripKnownSubdomains.
  destruct (negb _); [assumption|].
  destruct (map_get subdomainPrefixes _) as [domain|] eqn:E; [|assumption].
  apply map_get_Some_In, subdomainPrefixes_In in E as (sub & c & _ & Hin & _).
  apply Forall_app. split; [now apply (P_domains _ _ Hin)|].
  now apply Forall_skipn'.
Qed.

Lemma Forall_trimGitSuffix (s : str) : Forall P s -> Forall P (trimGitSuffix s).
Proof.
  intros H. unfold trimGitSuffix.
  repeat match goal with |- Forall P (if ?b then _ else _) =>
    destruct b; [now apply Forall_firstn'|] end.
  assumption.
Qed.

Lemma Forall_TrimSuffix (s p : str) : Forall P s -> Forall P (TrimSuffix s p).
Proof.
  intros H. unfold TrimSuffix.
  destruct (HasSuffix s p); [now apply Forall_firstn' | assumption].
Qed.

Lemma Forall_TrimPrefix (s p : str) : Forall P s -> Forall P (TrimPrefix s p).
Proof.
  intros H. unfold TrimPrefix.
  destruct (HasPrefix s p); [now apply Forall_skipn' | assumption].
Qed.

Lemma Forall_normalizeColonSeparator (s : str) :
  Forall P s -> Forall P (normalizeColonSeparator s).
Proof.
  intros H. unfold normalizeColonSeparator.
  destruct (Index s (lit ":")) as [idx|]; [|assumption].
  assert (G : Forall P (firstn idx s ++ lit "/" ++ skipn (idx + 1) s)).
  { apply Forall_app. split; [now apply Forall_firstn'|].
    unlit. constructor; [assumption | now apply Forall_skipn']. }
  destruct (skipn (idx + 1) s) as [|c r] eqn:E; [exact G|].
  destruct (Ascii.eqb c "/"); [assumption|].
  destruct (isDigit c); [assumption | exact G].
Qed.

(** The steps of [Clean] after the query string is cut. *)
Lemma Forall_Clean_steps (s : str) :
  Forall P s ->
  Forall P
    (collapseSlashes
       (normalizeColonSeparator
          (TrimSuffix
             (trimGitSuffix
                (stripKnownSubdomains
                   (removeSchemes (TrimPrefix (removeAuth s) (lit "=")))))
             (lit "/")))).
Proof.
  intros H.
  apply Forall_collapseSlashes, Forall_normalizeColonSeparator,
    Forall_TrimSuffix, Forall_trimGitSuffix, Forall_stripKnownSubdomains,
    Forall_removeSchemes, Forall_TrimPrefix, Forall_removeAuth, H.
Qed.

End Preserved.

Lemma okChar_domains (d c : str) :
  In (d, c) knownHosts -> Forall (fun x => okChar x = true) d.
Proof.
  intros H. apply Forall_forall. intros x Hx.
  assert (K : forallb (fun e : str * str => forallb okChar (fst e)) knownHosts
              = true) by (vm_compute; reflexivity).
  rewrite forallb_forall in K. specialize (K _ H). cbn [fst] in K.
  rewrite forallb_forall in K. now apply K.
Qed.

Lemma cut_at (s : str) (c : ascii) :
  ~ In c (match Index s [c] with Some idx => firstn idx s | None => s end).
Proof.
  destruct (Index s [c]) as [i|] eqn:E.
  - now apply Index_char_Some in E.
  - now apply Index_char_None.
Qed.

(** [Clean] leaves no white space of [noiseChars], quote or bracket, no [#]
    and no [?]. *)
Lemma Clean_okChar (rawURL : str) :
  Forall (fun x => okChar x = true) (Clean rawURL).
Proof.
  unfold Clean. destruct (is_empty (TrimSpace rawURL)); [constructor|].
  apply Forall_Clean_steps; [reflexivity | apply okChar_domains |].
  set (s1 := removeChars (TrimSpace rawURL) noiseChars).
  set (s2 := match Index s1 (lit "#") with Some i => firstn i s1 | None => s1 end).
  set (s3 := match Index s2 (lit "?") with Some i => firstn i s2 | None => s2 end).
  assert (H1 : Forall (fun x => ContainsByte noiseChars x = false) s1).
  { apply Forall_forall. intros x Hx. unfold s1, removeChars in Hx.
    apply filter_In in Hx as [_ Hx]. now apply negb_true_iff. }
  assert (H2 : ~ In "#" s2) by apply cut_at.
  assert (H3 : ~ In "?" s3) by apply cut_at.
  assert (I2 : incl s2 s1).
  { unfold s2. destruct (Index s1 (lit "#")); [|apply incl_refl].
    intros x Hx. rewrite <- (firstn_skipn n s1). apply in_or_app. now left. }
  assert (I3 : incl s3 s2).
  { unfold s3. destruct (Index s2 (lit "?")); [|apply incl_refl].
    intros x Hx. rewrite <- (firstn_skipn n s2). apply in_or_app. now left. }
  apply Forall_forall. intros x Hx. unfold okChar.
  rewrite Forall_forall in H1. rewrite (H1 x) by auto. simpl.
  destruct (Ascii.eqb_spec x "#") as [->|_]; [exfalso; auto|].
  destruct (Ascii.eqb_spec x "?") as [->|_]; [exfalso; auto | reflexivity].
Qed.

(** [Clean] leaves no [//]. *)
Lemma Clean_no_double_slash (rawURL : str) :
  Contains (Clean rawURL) (lit "//") = false.
Proof.
  unfold Clean. destruct (is_empty (TrimSpace rawURL)); [reflexivity|].
  apply collapseSlashes_done.
Qed.

(** ** Steps of [Clean] with nothing to do *)













Lemma HasSuffix_ToLower_unfold (s p : str) :
  HasSuffix (ToLower s) p =
  (length p <=? length s) && str_eqb (ToLower (skipn (length s - length p) s)) p.
Proof. unfold HasSuffix, ToLower. now rewrite length_map, skipn_map. Qed.




(** ** C1: cleaning a cleaned text *)





(** ** The base of a host *)

Lemma Parse_eq (rawURL : str) :
  Parse rawURL =
  if is_empty (ExtractOwnerRepo rawURL) then []
  else if is_empty (ExtractHost rawURL) then []
  else canonicalBase (ExtractHost rawURL) ++ lit "/" ++ ExtractOwnerRepo rawURL.
Proof.
  unfold Parse, canonicalBase.
  destruct (is_empty (ExtractOwnerRepo rawURL)); [reflexivity|].
  destruct (is_empty (ExtractHost rawURL)); [reflexivity|].
  destruct (canonicalizeHost (ExtractHost rawURL)) as [c n].
  destruct (negb (is_empty c)); [reflexivity|]. now rewrite <- app_assoc.
Qed.

Lemma canonicalizeHostScan_Some_In (order : list (str * str)) (h c n : str) :
  canonicalizeHostScan order h = Some (c, n) -> exists d, In (d, c) order.
Proof.
  induction order as [|[d' c'] order IH]; [discriminate|].
  cbn [canonicalizeHostScan].
  destruct (HasSuffix h (lit "." ++ d')).
  - destruct (knownSubdomains _); intros [= <- _]; exists d'; now left.
  - intros H. destruct (IH H) as [d Hd]. exists d. now right.
Qed.

Lemma canonicalizeHostScan_None_inv (order : list (str * str)) (h : str) :
  canonicalizeHostScan order h = None ->
  forall e, In e order -> HasSuffix h (lit "." ++ fst e) = false.
Proof.
  induction order as [|[d' c'] order IH]; [intros _ e []|].
  cbn [canonicalizeHostScan].
  destruct (HasSuffix h (lit "." ++ d')) eqn:E.
  - destruct (knownSubdomains _); discriminate.
  - intros H e [<-|He]; [exact E | now apply IH].
Qed.

(** The base is a base of the table, or the host is unknown and kept. *)
Lemma canonicalBase_cases (host : str) :
  (exists d c, In (d, c) knownHosts /\ canonicalBase host = c)
  \/ (canonicalBase host = lit "https://" ++ host
      /\ map_get knownHosts (ToLower host) = None
      /\ forall e, In e knownHosts ->
                   HasSuffix (ToLower host) (lit "." ++ fst e) = false).
Proof.
  unfold canonicalBase, canonicalizeHost, canonicalizeHostIn.
  destruct (map_get knownHosts (ToLower host)) as [c|] eqn:Em.
  - left. apply map_get_Some_In in Em. exists (ToLower host), c.
    split; [assumption|].
    destruct (knownHosts_entry _ _ Em) as (_ & Hc & _).
    apply is_empty_false in Hc. now rewrite Hc.
  - destruct (canonicalizeHostScan knownHosts (ToLower host)) as [[c n]|] eqn:Es.
    + left. destruct (canonicalizeHostScan_Some_In _ _ _ _ Es) as [d Hd].
      exists d, c. split; [assumption|].
      destruct (knownHosts_entry _ _ Hd) as (_ & Hc & _).
      apply is_empty_false in Hc. now rewrite Hc.
    + right. split; [reflexivity|]. split; [reflexivity|].
      now apply canonicalizeHostScan_None_inv.
Qed.

(** Every base of the table is [https://] and a settled host. *)
Lemma knownBases_checked :
  forallb
    (fun e : str * str =>
       HasPrefix (snd e) (lit "https://")
       && hostSettled (skipn 8 (snd e))
       && forallb okChar (skipn 8 (snd e)))
    knownHosts = true.
Proof. vm_compute. reflexivity. Qed.

Lemma knownBase_host (d c : str) :
  In (d, c) knownHosts ->
  exists h, c = lit "https://" ++ h /\ hostSettled h = true
            /\ Forall (fun x => okChar x = true) h.
Proof.
  intros H. pose proof knownBases_checked as K.
  rewrite forallb_forall in K. specialize (K _ H). cbn [snd] in K.
  rewrite !andb_true_iff in K. destruct K as [[K1 K2] K3].
  apply HasPrefix_spec in K1 as [h ->]. exists h.
  change (skipn 8 (lit "https://" ++ h)) with h in K2, K3.
  repeat split; try assumption.
  apply Forall_forall. now apply (proj1 (forallb_forall _ _)).
Qed.

Lemma pagesTlds_known (tld : str) :
  In tld pagesTlds ->
  exists c, In (lit "github." ++ tld, c) knownHosts.
Proof.
  intros [<-|[<-|[<-|[]]]]; exists (lit "https://github.com");
    vm_compute; tauto.
Qed.

Lemma unknown_hostSettled (h : str) :
  h <> [] -> ~ In "/" h ->
  canonicalBase h = lit "https://" ++ h ->
  (forall e, In e knownHosts ->
             HasSuffix (ToLower h) (lit "." ++ fst e) = false) ->
  hostSettled h = true.
Proof.
  intros Hne Hs Hb Hn. unfold hostSettled.
  apply is_empty_false in Hne. rewrite Hne, Hb, str_eqb_refl.
  unlit. apply Contains_char in Hs. rewrite Hs. cbn [negb andb].
  apply andb_true_iff. split.
  - destruct (map_get subdomainPrefixes (ToLower h)) as [v|] eqn:E;
      [|reflexivity].
    apply map_get_Some_In, subdomainPrefixes_In in E
      as (sub & c & _ & Hin & E).
    specialize (Hn _ Hin). cbn [fst] in Hn.
    unfold lit in E. cbn [list_ascii_of_string] in E.
    rewrite E, HasSuffix_app in Hn. discriminate.
  - apply forallb_forall. intros tld Ht.
    destruct (pagesTlds_known _ Ht) as [c Hc].
    specialize (Hn _ Hc). cbn [fst] in Hn. apply negb_true_iff.
    exact Hn.
Qed.

(** ** What the extractor returns *)

Lemma first_split_unique (a b a' b' : str) (c : ascii) :
  a ++ c :: b = a' ++ c :: b' -> ~ In c a -> ~ In c a' -> a = a' /\ b = b'.
Proof.
  revert a'; induction a as [|x a IH]; intros [|y a'] H Ha Ha'; simpl in H.
  - injection H as <-. auto.
  - injection H as <- _. exfalso. apply Ha'. now left.
  - injection H as -> _. exfalso. apply Ha. now left.
  - injection H as <- H. destruct (IH a' H) as [-> ->]; auto.
    + intros ?. apply Ha. now right.
    + intros ?. apply Ha'. now right.
Qed.

(** The part of a match before [(?:$|/)] has no [/], and ends, in lower
    case, with [.github.] and one of the top-level domains. *)
Lemma reShape_host (s : str) (m : submatch) :
  reShape s m ->
  exists x sl rest,
    s = x ++ sl ++ rest
    /\ match0 m = x ++ sl
    /\ ~ In "/" x
    /\ Forall (fun c => isHostChar c = true) (match1 m)
    /\ (exists tld, In tld pagesTlds
                    /\ ToLower x = ToLower (match1 m) ++ lit ".github." ++ tld)
    /\ ((sl = [] /\ rest = []) \/ sl = ["/"]).
Proof.
  intros (g & sl & rest & Hs & H0 & Hg & Ht & _ & Hf & Hsl).
  exists (match1 m ++ g ++ match2 m), sl, rest.
  rewrite <- !app_assoc. repeat split; try assumption.
  - intros Hin. apply in_app_or in Hin as [Hin|Hin].
    + rewrite Forall_forall in Hf. apply Hf in Hin. discriminate.
    + apply in_app_or in Hin as [Hin|Hin].
      * apply (ToLower_In g "/" eq_refl) in Hin. rewrite Hg in Hin.
        apply Contains_char_true in Hin. discriminate.
      * apply (ToLower_In (match2 m) "/" eq_refl) in Hin.
        destruct Ht as [Ht|[Ht|[Ht|[]]]]; rewrite <- Ht in Hin;
          apply Contains_char_true in Hin; discriminate.
  - exists (ToLower (match2 m)). split; [assumption|].
    now rewrite !ToLower_app, Hg.
Qed.


Lemma ExtractPath_okChar (rawURL : str) :
  Forall (fun x => okChar x = true) (ExtractPath rawURL).
Proof.
  pose proof (Clean_okChar rawURL) as H. unfold ExtractPath.
  set (s := Clean rawURL) in *.
  destruct (is_empty s); [constructor|].
  destruct (githubioRe_FindStringSubmatch s) as [m|] eqn:Em.
  - unfold githubioRe_ReplaceAllString_empty. rewrite Em.
    destruct (negb _); [|constructor].
    apply reGroup_shape in Em. destruct Em as (g & sl & rest & Hs & _).
    apply Forall_app. split.
    + rewrite Hs in H. now apply Forall_app in H.
    + unlit. constructor; [reflexivity | now apply Forall_skipn'].
  - destruct (Index s (lit "/")); [|constructor].
    destruct (_ =? _); [constructor|].
    now apply Forall_collapseSlashes, Forall_skipn'.
Qed.

(** The host is empty, or a GitHub-Pages host [github.tld], or the text
    before the first [/] of the cleaned text. *)
Lemma ExtractHost_cases (rawURL : str) :
  ExtractHost rawURL = []
  \/ (exists tld, In (ToLower tld) pagesTlds
                  /\ ExtractHost rawURL = lit "github." ++ tld)
  \/ (~ In "/" (ExtractHost rawURL)
      /\ Forall (fun x => okChar x = true) (ExtractHost rawURL)).
Proof.
  pose proof (Clean_okChar rawURL) as H. unfold ExtractHost.
  set (s := Clean rawURL) in *.
  destruct (is_empty s); [now left|]. right.
  destruct (githubioRe_FindStringSubmatch s) as [m|] eqn:Em.
  - left. apply reGroup_shape in Em.
    destruct Em as (g & sl & rest & _ & _ & _ & Ht & _).
    now exists (match2 m).
  - right. unlit. destruct (Index s ["/"]) as [i|] eqn:Ei.
    + split; [now apply Index_char_Some in Ei | now apply Forall_firstn'].
    + split; [now apply Index_char_None | assumption].
Qed.

(** ** Cleaning and parsing a canonical URL *)




Lemma okChar_https : Forall (fun x => okChar x = true) (lit "https://").
Proof. repeat constructor. Qed.


Lemma Contains_skip_no_slash (a s : str) :
  ~ In "/" a -> Contains (a ++ s) (lit "//") = Contains s (lit "//").
Proof.
  induction a as [|x a IH]; intros H; [reflexivity|].
  change ((x :: a) ++ s) with (x :: (a ++ s)).
  rewrite Contains_cons, IH by (intros ?; apply H; now right).
  unlit. cbn [HasPrefix].
  destruct (Ascii.eqb_spec x "/") as [->|_]; [|reflexivity].
  exfalso. apply H. now left.
Qed.

Lemma HasPrefix_slash_false (a s : str) :
  a <> [] -> ~ In "/" a -> HasPrefix (a ++ s) (lit "/") = false.
Proof.
  intros Hne H. destruct a as [|x a]; [congruence|].
  unlit. cbn [app HasPrefix].
  destruct (Ascii.eqb_spec x "/") as [->|_]; [|reflexivity].
  exfalso. apply H. now left.
Qed.



Lemma firstn_app_exact {A : Type} (a b : list A) :
  firstn (length a) (a ++ b) = a.
Proof. now rewrite firstn_app, firstn_all, Nat.sub_diag, app_nil_r. Qed.

Lemma skipn_app_exact {A : Type} (a b : list A) (c : A) :
  skipn (length a + 1) (a ++ c :: b) = b.
Proof.
  rewrite skipn_app, skipn_all2 by lia.
  now replace (length a + 1 - length a) with 1 by lia.
Qed.

Lemma hostSettled_facts (h : str) :
  hostSettled h = true ->
  h <> [] /\ ~ In "/" h
  /\ canonicalBase h = lit "https://" ++ h
  /\ map_get subdomainPrefixes (ToLower h) = None
  /\ forallb (fun tld => negb (HasSuffix (ToLower h) (lit ".github." ++ tld)))
             pagesTlds = true.
Proof.
  unfold hostSettled.
  rewrite !andb_true_iff, !negb_true_iff, is_empty_false, str_eqb_eq.
  intros [[[[H1 H2] H3] H4] H5]. unlit. apply Contains_char in H2.
  repeat split; try assumption.
  now destruct (map_get subdomainPrefixes (ToLower h)).
Qed.


Lemma pages_host_known (tld : str) :
  In (ToLower tld) pagesTlds ->
  map_get knownHosts (ToLower (lit "github." ++ tld)) <> None.
Proof.
  rewrite ToLower_app.
  intros [H|[H|[H|[]]]]; rewrite <- H; vm_compute; discriminate.
Qed.

(** The base [Parse] uses is [https://] and a settled host. *)
Lemma Parse_base (rawURL : str) :
  ExtractHost rawURL <> [] ->
  exists h,
    canonicalBase (ExtractHost rawURL) = lit "https://" ++ h
    /\ hostSettled h = true
    /\ Forall (fun x => okChar x = true) h.
Proof.
  intros Hne.
  destruct (canonicalBase_cases (ExtractHost rawURL))
    as [(d & c & Hin & ->)|(Hb & Hm & Hn)].
  - apply (knownBase_host _ _ Hin).
  - destruct (ExtractHost_cases rawURL) as [E|[(tld & Ht & E)|[Hs Hok]]].
    + congruence.
    + rewrite E in Hm. now apply pages_host_known in Ht.
    + exists (ExtractHost rawURL). repeat split; try assumption.
      now apply unknown_hostSettled.
Qed.


(** ** C2: parsing a canonical URL again *)




(** ** Each condition does work *)

(** Cleaned texts that another [Clean] changes, one for every condition
    of [settled] in turn: a vertical tab in front, an [@] before the first
    [/], a [:], a leading [=], a leading [/], a trailing [/], a trailing
    [.git], and a [www.] host. *)
Lemma settled_conditions_needed :
  Forall (fun rawURL => Clean (Clean rawURL) <> Clean rawURL)
    [ lit "/" ++ [chr 11] ++ lit "x";
      lit "/a@b.c/x/y";
      lit "a:b:c";
      lit "==x";
      lit ":x";
      lit "x//";
      lit "x.git.git";
      lit "www.github.com.git" ].
Proof. repeat constructor; vm_compute; discriminate. Qed.

(** Results of [Parse] that another [Parse] changes, one for every
    condition of C2 in turn: a vertical tab at the end, an [@] in the host,
    a second [:], and a trailing [.git]. *)
Lemma Parse_conditions_needed :
  Forall (fun rawURL => Parse rawURL <> [] /\ Parse (Parse rawURL) <> Parse rawURL)
    [ lit "github.com/a/b" ++ [chr 11] ++ lit "/";
      lit "/a@b.c/x/y";
      lit "h.x:a/o:b";
      lit "github.com/a/b.git.git" ].
Proof. repeat constructor; vm_compute; discriminate. Qed.

(** * Further properties of the package *)

(** ** Blank input *)

(** X1.  On an input that is empty or all white space every operation
    gives its empty result. *)
Theorem blank_input_gives_empty (rawURL : str) :
  TrimSpace rawURL = [] ->
  Clean rawURL = [] /\ Normalize rawURL = []
  /\ ExtractHost rawURL = [] /\ ExtractPath rawURL = []
  /\ ExtractOwnerRepo rawURL = [] /\ Parse rawURL = []
  /\ CanonicalURL rawURL = [] /\ ParseURL rawURL = None
  /\ IsKnownHost rawURL = false.
Proof.
  intros H.
  assert (C : Clean rawURL = []) by (unfold Clean; now rewrite H).
  assert (EH : ExtractHost rawURL = []) by (unfold ExtractHost; now rewrite C).
  assert (EP : ExtractPath rawURL = []) by (unfold ExtractPath; now rewrite C).
  assert (EO : ExtractOwnerRepo rawURL = [])
    by (unfold ExtractOwnerRepo; now rewrite EP).
  assert (P : Parse rawURL = []) by (now apply Parse_no_owner_repo).
  assert (K : IsKnownHost rawURL = false)
    by (unfold IsKnownHost; now rewrite EH).
  repeat split; try assumption.
  - unfold Normalize. now rewrite H.
  - unfold CanonicalURL. now rewrite K.
  - unfold ParseURL. now rewrite EO.
Qed.

Lemma blank_input_gives_empty_witness :
  Parse (map chr [32; 9; 10]) = [] /\ ParseURL (map chr [32; 9; 10]) = None.
Proof.
  assert (H : TrimSpace (map chr [32; 9; 10]) = []) by (vm_compute; reflexivity).
  pose proof (blank_input_gives_empty _ H) as K.
  split; [apply K | apply K].
Defined.

(** ** What [Clean] returns *)

(** X2.  The result of [Clean] has no space, tab, newline or carriage
    return, no quote, no bracket, no [#], no [?], and no [//]. *)
Theorem Clean_result_is_tidy (rawURL : str) :
  (forall c, In c (Clean rawURL) ->
             ~ In c noiseChars /\ c <> "#" /\ c <> "?")
  /\ Contains (Clean rawURL) (lit "//") = false.
Proof.
  split; [|apply Clean_no_double_slash].
  intros c Hc. pose proof (Clean_okChar rawURL) as K.
  rewrite Forall_forall in K. specialize (K _ Hc). unfold okChar in K.
  rewrite !andb_true_iff, !negb_true_iff in K. destruct K as [[K1 K2] K3].
  repeat split.
  - intros Hin. unfold ContainsByte in K1.
    assert (E : existsb (Ascii.eqb c) noiseChars = true)
      by (apply existsb_exists; exists c; split;
          [assumption | apply Ascii.eqb_refl]).
    congruence.
  - intros ->. discriminate.
  - intros ->. discriminate.
Qed.

Lemma TrimSpaceLeft_length (s : str) : length (TrimSpaceLeft s) <= length s.
Proof.
  induction s as [|c s IH]; simpl; [lia|].
  destruct (isSpace c); simpl; lia.
Qed.

Lemma TrimSpace_length (s : str) : length (TrimSpace s) <= length s.
Proof.
  unfold TrimSpace. rewrite length_rev.
  etransitivity; [apply TrimSpaceLeft_length|]. rewrite length_rev.
  apply TrimSpaceLeft_length.
Qed.

Lemma removeAuth_length (s : str) : length (removeAuth s) <= length s.
Proof.
  unfold removeAuth. destruct (LastIndex _ _); [|lia].
  repeat match goal with |- length (if ?b then _ else _) <= _ =>
    destruct b; [lia|] end.
  rewrite length_app, length_firstn, !length_skipn. lia.
Qed.

Lemma stripKnownSubdomains_length (s : str) :
  length (stripKnownSubdomains s) <= length s.
Proof.
  unfold stripKnownSubdomains. destruct (negb _); [lia|].
  match goal with |- context [firstn ?e s] => set (end_ := e) end.
  destruct (map_get subdomainPrefixes (ToLower (firstn end_ s)))
    as [domain|] eqn:E; [|lia].
  apply map_get_Some_In, subdomainPrefixes_In in E as (sub & c & _ & _ & E).
  apply (f_equal (@length ascii)) in E.
  rewrite ToLower_length, !length_app, length_firstn in E.
  rewrite length_app, length_skipn. lia.
Qed.

Lemma trimGitSuffix_length (s : str) : length (trimGitSuffix s) <= length s.
Proof.
  unfold trimGitSuffix.
  repeat match goal with |- length (if ?b then _ else _) <= _ =>
    destruct b; [rewrite length_firstn; lia|] end.
  lia.
Qed.

Lemma normalizeColonSeparator_length (s : str) :
  length (normalizeColonSeparator s) = length s.
Proof.
  unfold normalizeColonSeparator. unlit.
  destruct (Index s [":"]) as [idx|] eqn:E; [|reflexivity].
  apply Index_char_Some in E as (_ & _ & E).
  assert (G : length (firstn idx s ++ ["/"] ++ skipn (idx + 1) s) = length s).
  { rewrite !length_app, length_firstn, length_skipn. simpl. lia. }
  destruct (skipn (idx + 1) s) as [|c r] eqn:Er; [exact G|].
  destruct (Ascii.eqb c "/"); [reflexivity|].
  destruct (isDigit c); [reflexivity | exact G].
Qed.

Lemma collapseSlashes_length (s : str) : length (collapseSlashes s) <= length s.
Proof.
  unfold collapseSlashes. generalize (length s) at 1 as fuel. intros fuel.
  revert s; induction fuel as [|fuel IH]; intros s; simpl; [lia|].
  destruct (Contains s (lit "//")); [|lia].
  etransitivity; [apply IH|].
  apply (ReplaceAllSlashes_length (length s)). lia.
Qed.

(** X3.  [Clean] never returns a text longer than its input. *)
Theorem Clean_never_lengthens (rawURL : str) :
  length (Clean rawURL) <= length rawURL.
Proof.
  unfold Clean. destruct (is_empty (TrimSpace rawURL)); [simpl; lia|].
  etransitivity; [apply collapseSlashes_length|].
  rewrite normalizeColonSeparator_length.
  assert (TS : forall s p, length (TrimSuffix s p) <= length s).
  { intros s p. unfold TrimSuffix. destruct (HasSuffix s p);
      [rewrite length_firstn|]; lia. }
  assert (TP : forall s p, length (TrimPrefix s p) <= length s).
  { intros s p. unfold TrimPrefix. destruct (HasPrefix s p);
      [rewrite length_skipn|]; lia. }
  assert (CU : forall s p, length (match Index s p with
                                   | Some idx => firstn idx s
                                   | None => s end) <= length s).
  { intros s p. destruct (Index s p); [rewrite length_firstn|]; lia. }
  etransitivity; [apply TS|].
  etransitivity; [apply trimGitSuffix_length|].
  etransitivity; [apply stripKnownSubdomains_length|].
  etransitivity; [apply suffixOf_length, suffixOf_removeSchemes|].
  etransitivity; [apply TP|].
  etransitivity; [apply removeAuth_length|].
  etransitivity; [apply CU|].
  etransitivity; [apply CU|].
  etransitivity; [|apply TrimSpace_length].
  unfold removeChars. apply filter_length_le.
Qed.

(** ** What [removeSchemes] leaves *)

Lemma suffixOf_same (r s : str) : suffixOf r s -> length s <= length r -> r = s.
Proof.
  intros H L. destruct (suffixOf_length _ _ H) as [H1 H2]. apply H2. lia.
Qed.

Lemma schemes_nonempty :
  forallb (fun scheme => negb (is_empty scheme)) schemes = true.
Proof. vm_compute. reflexivity. Qed.

Lemma HasPrefix_length (s p : str) :
  HasPrefix s p = true -> length p <= length s.
Proof.
  intros H. apply HasPrefix_spec in H as [r ->]. rewrite length_app. lia.
Qed.

Lemma suffixOf_if (b : bool) (x y s : str) :
  suffixOf x s -> suffixOf y s -> suffixOf (if b then x else y) s.
Proof. now destruct b. Qed.

(** A pass of the loop that changes nothing found nothing to remove. *)
Lemma removeSchemesPass_fixed (s : str) :
  removeSchemesPass s = s ->
  (forall scheme, In scheme schemes -> HasPrefix (ToLower s) scheme = false)
  /\ HasPrefix (ToLower s) (lit "git//") = false
  /\ HasPrefix s (lit "/") = false.
Proof.
  unfold removeSchemesPass.
  set (a := if HasPrefix (ToLower s) (lit "scm:git:") then skipn 8 s
            else if HasPrefix (ToLower s) (lit "scm:svn:") then skipn 8 s
            else if HasPrefix (ToLower s) (lit "scm:hg:") then skipn 7 s
            else s).
  set (b := removeScheme a).
  set (c := if HasPrefix (ToLower b) (lit "git//") then skipn 5 b else b).
  intros E.
  assert (Sa : suffixOf a s).
  { unfold a. repeat (apply suffixOf_if; [apply suffixOf_skipn|]).
    apply suffixOf_refl. }
  assert (Sb : suffixOf b a) by apply suffixOf_removeScheme.
  assert (Sc : suffixOf c b).
  { unfold c. apply suffixOf_if; [apply suffixOf_skipn | apply suffixOf_refl]. }
  assert (Sd : suffixOf (TrimLeft c (lit "/")) c) by apply suffixOf_TrimLeft.
  pose proof (proj1 (suffixOf_length _ _ Sa)) as La.
  pose proof (proj1 (suffixOf_length _ _ Sb)) as Lb.
  pose proof (proj1 (suffixOf_length _ _ Sc)) as Lc.
  pose proof (proj1 (suffixOf_length _ _ Sd)) as Ld.
  rewrite E in Ld, Sd.
  assert (Ea : a = s) by (apply suffixOf_same; [assumption | lia]).
  assert (Eb : b = a) by (apply suffixOf_same; [assumption | lia]).
  assert (Ec : c = b) by (apply suffixOf_same; [assumption | lia]).
  rewrite Ea in Eb. rewrite Eb in Ec. rewrite Ec in E.
  split; [|split].
  - intros scheme Hin.
    destruct (HasPrefix (ToLower s) scheme) eqn:Hp; [|reflexivity]. exfalso.
    unfold b, removeScheme in Eb. rewrite Ea in Eb.
    destruct (find (HasPrefix (ToLower s)) schemes) as [sch|] eqn:Ef.
    + apply find_some in Ef as [Hs Hq].
      pose proof schemes_nonempty as K. rewrite forallb_forall in K.
      specialize (K _ Hs). apply negb_true_iff, is_empty_false in K.
      apply HasPrefix_length in Hq. rewrite ToLower_length in Hq.
      apply (f_equal (@length ascii)) in Eb. rewrite length_skipn in Eb.
      destruct sch; [congruence | simpl in *; lia].
    + apply (find_none _ _ Ef) in Hin. congruence.
  - destruct (HasPrefix (ToLower s) (lit "git//")) eqn:Hp; [|reflexivity].
    exfalso. unfold c in Ec. rewrite Eb, Hp in Ec.
    apply HasPrefix_length in Hp. rewrite ToLower_length in Hp.
    apply (f_equal (@length ascii)) in Ec. rewrite length_skipn in Ec.
    change (length (lit "git//")) with 5 in Hp. lia.
  - destruct s as [|x s]; [reflexivity|]. unlit. cbn [HasPrefix].
    rewrite andb_true_r. destruct (Ascii.eqb_spec x "/") as [->|]; [|reflexivity].
    exfalso. simpl in E.
    pose proof (suffixOf_TrimLeft s ["/"]) as K. rewrite E in K.
    apply suffixOf_length in K as [K _]. simpl in K. lia.
Qed.

(** X4.  [removeSchemes] returns what is left of the text after a prefix,
    and what it returns begins, in any letter case, with none of the
    scheme prefixes, not with [git//] and not with [/]. *)
Theorem removeSchemes_leaves_no_scheme (s : str) :
  suffixOf (removeSchemes s) s
  /\ (forall scheme, In scheme schemes ->
                     HasPrefix (ToLower (removeSchemes s)) scheme = false)
  /\ HasPrefix (ToLower (removeSchemes s)) (lit "git//") = false
  /\ HasPrefix (removeSchemes s) (lit "/") = false.
Proof.
  split; [apply suffixOf_removeSchemes|].
  apply removeSchemesPass_fixed, removeSchemes_break.
Qed.

(** ** [Normalize] *)









Lemma Clean_result_is_tidy_witness :
  In "g" (Clean (lit "<git@github.com:foo/bar.git>"))
  /\ ~ In "g" noiseChars /\ "g" <> "#" /\ "g" <> "?".
Proof.
  assert (H : In "g" (Clean (lit "<git@github.com:foo/bar.git>")))
    by (apply (proj1 (Contains_char_true
                        (Clean (lit "<git@github.com:foo/bar.git>")) "g"));
        vm_compute; reflexivity).
  split; [exact H|].
  exact (proj1 (Clean_result_is_tidy (lit "<git@github.com:foo/bar.git>")) _ H).
Defined.

Lemma removeSchemes_leaves_no_scheme_witness :
  In (lit "https://") schemes
  /\ HasPrefix (ToLower (removeSchemes (lit "scm:git:HTTPS://github.com/a/b")))
               (lit "https://") = false.
Proof.
  assert (H : In (lit "https://") schemes)
    by (vm_compute; tauto).
  split; [exact H|].
  exact (proj1 (proj2 (removeSchemes_leaves_no_scheme
                         (lit "scm:git:HTTPS://github.com/a/b"))) _ H).
Defined.

(** ** [removeAuth] *)

Lemma LastIndex_char_app (a b : str) (c : ascii) :
  ~ In c b -> LastIndex (a ++ c :: b) [c] = Some (length a).
Proof.
  intros H. induction a as [|x a IH].
  - simpl. rewrite (LastIndex_char_None b c H). now rewrite Ascii.eqb_refl.
  - change ((x :: a) ++ c :: b) with (x :: (a ++ c :: b)).
    cbn [LastIndex]. now rewrite IH.
Qed.

Lemma Index_char_skip (a b : str) (c : ascii) :
  ~ In c a ->
  Index (a ++ b) [c] = option_map (fun i => length a + i) (Index b [c]).
Proof.
  intros H. induction a as [|x a IH].
  - simpl. now destruct (Index b [c]).
  - change ((x :: a) ++ b) with (x :: (a ++ b)). rewrite Index_char_cons.
    destruct (Ascii.eqb_spec x c) as [->|_]; [exfalso; apply H; now left|].
    rewrite IH by (intros ?; apply H; now right).
    now destruct (Index b [c]).
Qed.

(** X6.  Where [pre] is the scheme part as [removeAuth] finds it (up to
    the first [://], or nothing), a credential segment [cred@] without [/]
    in front of a text with a [.] and no further [@] is removed; in front
    of a text with neither [.] nor [:] it is kept. *)
Theorem removeAuth_credentials (pre cred after : str) :
  match Index (pre ++ cred ++ "@" :: after) (lit "://") with
  | Some idx => idx + 3
  | None => 0
  end = length pre ->
  ~ In "/" cred -> ~ In "@" after ->
  (Contains after (lit ".") = true ->
   removeAuth (pre ++ cred ++ "@" :: after) = pre ++ after)
  /\ (Contains after (lit ".") = false -> ~ In ":" after ->
      removeAuth (pre ++ cred ++ "@" :: after) = pre ++ cred ++ "@" :: after).
Proof.
  intros Hpre Hc Ha. unfold removeAuth. rewrite Hpre.
  rewrite skipn_app, skipn_all, Nat.sub_diag, skipn_O. cbn [app].
  unlit. rewrite LastIndex_char_app by assumption.
  rewrite Index_char_skip by assumption. rewrite Index_char_cons.
  change (Ascii.eqb "@" "/") with false. cbv iota.
  assert (E : match option_map (fun i => length cred + i)
                      (option_map S (Index after ["/"])) with
              | Some si => si <=? length cred
              | None => false
              end = false).
  { destruct (Index after ["/"]); simpl; [|reflexivity].
    apply Nat.leb_gt. lia. }
  rewrite E, skipn_app_exact, firstn_app_exact.
  split.
  - intros Hd. now rewrite Hd.
  - intros Hd Hn. rewrite Hd. apply Index_char_None in Hn. now rewrite Hn.
Qed.

Lemma removeAuth_credentials_witness :
  removeAuth (lit "https://" ++ lit "user:pass" ++ "@" :: lit "github.com/foo/bar")
  = lit "https://" ++ lit "github.com/foo/bar"
  /\ removeAuth ([] ++ lit "alice" ++ "@" :: lit "localhost/x")
     = [] ++ lit "alice" ++ "@" :: lit "localhost/x".
Proof.
  split.
  - apply (removeAuth_credentials (lit "https://") (lit "user:pass")
             (lit "github.com/foo/bar")).
    + vm_compute. reflexivity.
    + intros H. apply Contains_char_true in H. vm_compute in H. discriminate.
    + intros H. apply Contains_char_true in H. vm_compute in H. discriminate.
    + vm_compute. reflexivity.
  - apply (removeAuth_credentials [] (lit "alice") (lit "localhost/x")).
    + vm_compute. reflexivity.
    + intros H. apply Contains_char_true in H. vm_compute in H. discriminate.
    + intros H. apply Contains_char_true in H. vm_compute in H. discriminate.
    + vm_compute. reflexivity.
    + intros H. apply Contains_char_true in H. vm_compute in H. discriminate.
Defined.

(** ** [trimGitSuffix] *)

(** X7.  [trimGitSuffix] removes a [.git] or a [.git/] at the end, written
    in any letter case, and leaves a text that ends in neither as it is. *)
Theorem trimGitSuffix_any_case (s suffix : str) :
  (ToLower suffix = lit ".git" \/ ToLower suffix = lit ".git/" ->
   trimGitSuffix (s ++ suffix) = s)
  /\ (HasSuffix (ToLower s) (lit ".git") = false ->
      HasSuffix (ToLower s) (lit ".git/") = false ->
      trimGitSuffix s = s).
Proof.
  split.
  - intros [H|H]; unfold trimGitSuffix.
    + assert (L : length suffix = 4) by (now rewrite <- ToLower_length, H).
      rewrite length_app, L.
      replace (length s + 4 - 4) with (length s) by lia.
      rewrite skipn_app, skipn_all, Nat.sub_diag, skipn_O, firstn_app_exact.
      cbn [app]. rewrite H, str_eqb_refl.
      replace (4 <=? length s + 4) with true by (symmetry; apply Nat.leb_le; lia).
      reflexivity.
    + assert (L : length suffix = 5) by (now rewrite <- ToLower_length, H).
      rewrite length_app, L.
      replace (length s + 5 - 5) with (length s) by lia.
      replace (length s + 5 - 4) with (length s + 1) by lia.
      rewrite !skipn_app, !skipn_all, !skipn_all2 by lia.
      rewrite Nat.sub_diag, skipn_O, firstn_app_exact. cbn [app].
      replace (length s + 1 - length s) with 1 by lia.
      rewrite H, str_eqb_refl.
      replace (5 <=? length s + 5) with true by (symmetry; apply Nat.leb_le; lia).
      assert (E : str_eqb (ToLower (skipn 1 suffix)) (lit ".git") = false).
      { unfold ToLower. rewrite <- skipn_map. fold (ToLower suffix).
        now rewrite H. }
      now rewrite E, andb_false_r.
  - intros H4 H5. unfold trimGitSuffix.
    rewrite HasSuffix_ToLower_unfold in H4, H5.
    change (length (lit ".git")) with 4 in H4.
    change (length (lit ".git/")) with 5 in H5.
    now rewrite H4, H5.
Qed.

Lemma trimGitSuffix_any_case_witness :
  trimGitSuffix (lit "github.com/a/b" ++ lit ".GIT") = lit "github.com/a/b"
  /\ trimGitSuffix (lit "github.com/a/b") = lit "github.com/a/b".
Proof.
  split.
  - apply (proj1 (trimGitSuffix_any_case (lit "github.com/a/b") (lit ".GIT"))).
    left. vm_compute. reflexivity.
  - apply (proj2 (trimGitSuffix_any_case (lit "github.com/a/b") [])).
    + vm_compute. reflexivity.
    + vm_compute. reflexivity.
Defined.

(** ** [stripKnownSubdomains] *)

Lemma map_get_NoDup_In {V : Type} (m : list (str * V)) (k : str) (v : V) :
  NoDup (map fst m) -> In (k, v) m -> map_get m k = Some v.
Proof.
  induction m as [|[k' v'] m IH]; intros N H; [destruct H|].
  simpl in N. inversion N as [|? ? N1 N2]; subst. simpl.
  destruct H as [[= -> ->]|H]; [now rewrite str_eqb_refl|].
  destruct (str_eqb k' k) eqn:E; [|now apply IH].
  apply str_eqb_eq in E. subst. exfalso. apply N1.
  apply in_map_iff. now exists (k, v).
Qed.







(** ** The host canonicalizer and [IsKnownHost] *)

Lemma canonicalizeHostScan_Some_inv (order : list (str * str)) (h c n : str) :
  canonicalizeHostScan order h = Some (c, n) ->
  exists d, In (d, c) order /\ HasSuffix h (lit "." ++ d) = true
            /\ (n = d \/ n = h).
Proof.
  induction order as [|[d' c'] order IH]; [discriminate|].
  cbn [canonicalizeHostScan].
  destruct (HasSuffix h (lit "." ++ d')) eqn:E.
  - destruct (knownSubdomains _); intros [= <- <-]; exists d';
      (split; [now left|]); auto.
  - intros H. destruct (IH H) as (d & Hd & Hs & Hn). exists d.
    split; [now right | auto].
Qed.

(** The two outcomes of [canonicalizeHost]: a base of the table with the
    bare domain or the host in lower case, or no base and the host as it
    was given. *)
Lemma canonicalizeHost_cases (host : str) :
  (exists d c n,
      In (d, c) knownHosts /\ canonicalizeHost host = (c, n) /\ c <> []
      /\ (n = d \/ n = ToLower host))
  \/ (canonicalizeHost host = ([], host)
      /\ map_get knownHosts (ToLower host) = None
      /\ forall e, In e knownHosts ->
                   HasSuffix (ToLower host) (lit "." ++ fst e) = false).
Proof.
  unfold canonicalizeHost, canonicalizeHostIn.
  destruct (map_get knownHosts (ToLower host)) as [c|] eqn:Em.
  - left. apply map_get_Some_In in Em.
    destruct (knownHosts_entry _ _ Em) as (_ & Hc & _).
    exists (ToLower host), c, (ToLower host). auto.
  - destruct (canonicalizeHostScan knownHosts (ToLower host)) as [[c n]|] eqn:Es.
    + left. destruct (canonicalizeHostScan_Some_inv _ _ _ _ Es)
        as (d & Hd & _ & Hn).
      destruct (knownHosts_entry _ _ Hd) as (_ & Hc & _).
      exists d, c, n. auto.
    + right. split; [reflexivity|]. split; [reflexivity|].
      now apply canonicalizeHostScan_None_inv.
Qed.

Lemma canonicalizeHostScan_exists (order : list (str * str)) (h : str) :
  is_none (canonicalizeHostScan order h)
  = negb (existsb (fun dc : str * str => HasSuffix h (lit "." ++ fst dc)) order).
Proof.
  induction order as [|[d c] order IH]; [reflexivity|].
  cbn [canonicalizeHostScan existsb fst].
  destruct (HasSuffix h (lit "." ++ d)); [|exact IH].
  now destruct (knownSubdomains _).
Qed.

(** X10.  [canonicalizeHost] is indifferent to letter case for a known
    host: a host equal to a known domain, or made of a subdomain token
    and a known domain, gives the domain's base and the bare domain.  A
    host for which it gives no base is returned as it was written. *)
Theorem canonicalizeHost_known_forms (host prefix d c : str) :
  In (d, c) knownHosts ->
  (ToLower host = d -> canonicalizeHost host = (c, d))
  /\ (knownSubdomains (ToLower prefix) = true ->
      canonicalizeHost (prefix ++ lit "." ++ d) = (c, d))
  /\ (fst (canonicalizeHost host) = [] -> canonicalizeHost host = ([], host)).
Proof.
  intros Hin. split; [|split].
  - intros Hl. unfold canonicalizeHost, canonicalizeHostIn. rewrite Hl.
    rewrite (map_get_NoDup_In knownHosts d c);
      [reflexivity | apply tables_keys_distinct | assumption].
  - intros Hp. now rewrite (canonicalizeHost_under_known _ _ _ Hin), Hp.
  - intros H.
    destruct (canonicalizeHost_cases host)
      as [(d' & c' & n & _ & E & Hc & _)|[E _]]; [|exact E].
    rewrite E in H. simpl in H. congruence.
Qed.

Lemma canonicalizeHost_known_forms_witness :
  canonicalizeHost (lit "GitLab.COM") = (lit "https://gitlab.com", lit "gitlab.com")
  /\ canonicalizeHost (lit "Www" ++ lit "." ++ lit "gitlab.com")
     = (lit "https://gitlab.com", lit "gitlab.com")
  /\ canonicalizeHost (lit "Git.Example.com") = ([], lit "Git.Example.com").
Proof.
  assert (Hin : In (lit "gitlab.com", lit "https://gitlab.com") knownHosts)
    by (vm_compute; tauto).
  split; [|split].
  - apply (proj1 (canonicalizeHost_known_forms
                    (lit "GitLab.COM") [] _ _ Hin)).
    vm_compute. reflexivity.
  - apply (proj1 (proj2 (canonicalizeHost_known_forms
                           [] (lit "Www") _ _ Hin))).
    vm_compute. reflexivity.
  - apply (proj2 (proj2 (canonicalizeHost_known_forms
                           (lit "Git.Example.com") [] _ _ Hin))).
    vm_compute. reflexivity.
Defined.

Lemma canonicalizeHost_any_order_witness :
  canonicalizeHostIn (rev knownHosts) (lit "api.bitbucket.org")
  = canonicalizeHost (lit "api.bitbucket.org").
Proof.
  apply canonicalizeHost_any_order. apply Permutation_sym, Permutation_rev.
Defined.

(** X11.  [IsKnownHost] holds exactly when the extracted host is not empty
    and [canonicalizeHost] finds a base for it: the two functions
    recognize the same hosts. *)
Theorem IsKnownHost_iff_canonical_base (rawURL : str) :
  IsKnownHost rawURL
  = negb (is_empty (ExtractHost rawURL))
    && negb (is_empty (fst (canonicalizeHost (ExtractHost rawURL)))).
Proof.
  unfold IsKnownHost. set (h := ExtractHost rawURL).
  assert (E : is_empty (ToLower h) = is_empty h) by (now destruct h).
  rewrite E. destruct (is_empty h); [reflexivity|]. cbn [negb andb].
  unfold canonicalizeHost, canonicalizeHostIn.
  destruct (map_get knownHosts (ToLower h)) as [c|] eqn:Em.
  - apply map_get_Some_In in Em.
    destruct (knownHosts_entry _ _ Em) as (_ & Hc & _).
    apply is_empty_false in Hc. cbn [fst]. now rewrite Hc.
  - pose proof (canonicalizeHostScan_exists knownHosts (ToLower h)) as X.
    destruct (canonicalizeHostScan knownHosts (ToLower h)) as [[c n]|] eqn:Es.
    + cbn [is_none] in X. apply (f_equal negb) in X.
      rewrite negb_involutive in X. rewrite <- X. cbn [fst negb].
      destruct (canonicalizeHostScan_Some_In _ _ _ _ Es) as [d Hd].
      destruct (knownHosts_entry _ _ Hd) as (_ & Hc & _).
      apply is_empty_false in Hc. now rewrite Hc.
    + cbn [is_none] in X. apply (f_equal negb) in X.
      rewrite negb_involutive in X. rewrite <- X. reflexivity.
Qed.

(** ** The results of [Parse] and [CanonicalURL] *)

(** X12.  A non-empty result of [Parse] is [https://host/owner/repo]:
    host, owner and repo are non-empty and without [/], owner and repo
    are those of [ExtractOwnerRepo], and the result has none of the
    characters [Clean] removes. *)
Theorem Parse_result_shape (rawURL : str) :
  Parse rawURL <> [] ->
  exists h o r,
    Parse rawURL = lit "https://" ++ h ++ lit "/" ++ o ++ lit "/" ++ r
    /\ ExtractOwnerRepo rawURL = o ++ lit "/" ++ r
    /\ h <> [] /\ o <> [] /\ r <> []
    /\ ~ In "/" h /\ ~ In "/" o /\ ~ In "/" r
    /\ Forall (fun c => okChar c = true) (Parse rawURL).
Proof.
  intros Hne. pose proof Hne as Hne'. rewrite Parse_eq in Hne'.
  destruct (is_empty (ExtractOwnerRepo rawURL)) eqn:Eo; [congruence|].
  destruct (is_empty (ExtractHost rawURL)) eqn:Eh; [congruence|].
  apply is_empty_false in Eo, Eh.
  destruct (ExtractOwnerRepo_shape _ Eo)
    as (o & r & tail & EO & EP & Ho & Hr & Hso & Hsr).
  destruct (Parse_base _ Eh) as (h & Hb & Hh & Hok).
  destruct (hostSettled_facts _ Hh) as (Hhne & Hsh & _).
  assert (E : Parse rawURL = lit "https://" ++ h ++ lit "/" ++ o ++ lit "/" ++ r).
  { rewrite Parse_eq. apply is_empty_false in Eo, Eh.
    rewrite Eo, Eh, Hb, EO. now rewrite <- app_assoc. }
  exists h, o, r. repeat split; try assumption.
  rewrite E. pose proof (ExtractPath_okChar rawURL) as K. rewrite EP in K.
  apply Forall_app in K as [K1 K2]. inversion K2 as [|? ? _ K3]; subst.
  apply Forall_app in K3 as [K3 _].
  apply Forall_app. split; [apply okChar_https|].
  apply Forall_app. split; [assumption|]. unlit.
  constructor; [reflexivity|]. apply Forall_app. split; [assumption|].
  now constructor.
Qed.

Lemma Parse_result_shape_witness :
  exists h o r,
    Parse (lit "git@github.com:user/repo.git")
    = lit "https://" ++ h ++ lit "/" ++ o ++ lit "/" ++ r
    /\ ExtractOwnerRepo (lit "git@github.com:user/repo.git") = o ++ lit "/" ++ r
    /\ h <> [] /\ o <> [] /\ r <> []
    /\ ~ In "/" h /\ ~ In "/" o /\ ~ In "/" r
    /\ Forall (fun c => okChar c = true)
              (Parse (lit "git@github.com:user/repo.git")).
Proof.
  apply Parse_result_shape. vm_compute. discriminate.
Defined.

(** X13.  For a host that [IsKnownHost] does not recognize, a non-empty
    result of [Parse] is [https://], the extracted host as it was written,
    and the owner and repo. *)
Theorem Parse_unknown_host (rawURL : str) :
  IsKnownHost rawURL = false -> Parse rawURL <> [] ->
  Parse rawURL
  = lit "https://" ++ ExtractHost rawURL ++ lit "/" ++ ExtractOwnerRepo rawURL.
Proof.
  intros Hk Hne. rewrite IsKnownHost_iff_canonical_base in Hk.
  unfold Parse in *.
  destruct (is_empty (ExtractOwnerRepo rawURL)); [congruence|].
  destruct (is_empty (ExtractHost rawURL)) eqn:Eh; [congruence|].
  cbn [negb andb] in Hk. apply negb_false_iff, is_empty_true in Hk.
  destruct (canonicalizeHost_cases (ExtractHost rawURL))
    as [(d & c & n & _ & E & Hc & _)|[E _]].
  - rewrite E in Hk. simpl in Hk. congruence.
  - now rewrite E.
Qed.

Lemma Parse_unknown_host_witness :
  Parse (lit "git@Git.MyCompany.com:Team/Project.git")
  = lit "https://" ++ ExtractHost (lit "git@Git.MyCompany.com:Team/Project.git")
    ++ lit "/" ++ ExtractOwnerRepo (lit "git@Git.MyCompany.com:Team/Project.git").
Proof.
  apply Parse_unknown_host.
  - vm_compute. reflexivity.
  - vm_compute. discriminate.
Defined.

(** X14.  [CanonicalURL] returns the empty string, or the result of
    [Parse] made of a base of the known-host table and the owner and
    repo; it returns the empty string for every host that is not known. *)
Theorem CanonicalURL_known_base (rawURL : str) :
  (CanonicalURL rawURL = []
   \/ exists d c,
        In (d, c) knownHosts
        /\ CanonicalURL rawURL = Parse rawURL
        /\ CanonicalURL rawURL = c ++ lit "/" ++ ExtractOwnerRepo rawURL)
  /\ (IsKnownHost rawURL = false -> CanonicalURL rawURL = []).
Proof.
  split; [|unfold CanonicalURL; now intros ->].
  unfold CanonicalURL. destruct (IsKnownHost rawURL) eqn:Hk; [|now left].
  cbn [negb]. rewrite IsKnownHost_iff_canonical_base in Hk.
  apply andb_true_iff in Hk as [Hh Hc].
  apply negb_true_iff in Hh, Hc.
  unfold Parse. destruct (is_empty (ExtractOwnerRepo rawURL)); [now left|].
  rewrite Hh.
  destruct (canonicalizeHost_cases (ExtractHost rawURL))
    as [(d & c & n & Hin & E & _ & _)|[E _]].
  - right. exists d, c. rewrite E in *. cbn [fst] in Hc. rewrite Hc. auto.
  - rewrite E in Hc. discriminate.
Qed.

Lemma CanonicalURL_known_base_witness :
  CanonicalURL (lit "https://git.example.com/owner/repo") = [].
Proof.
  apply (proj2 (CanonicalURL_known_base _)). vm_compute. reflexivity.
Defined.

(** ** GitHub-Pages addresses *)

(** X15.  When the cleaned text matches the GitHub-Pages pattern, the host
    is [github.] and the matched top-level domain, it is a known host, and
    a non-empty result of [Parse] is [https://github.com/], the matched
    user name, [/] and a repo. *)
Theorem Parse_github_pages (rawURL : str) (m : submatch) :
  githubioRe_FindStringSubmatch (Clean rawURL) = Some m ->
  ExtractHost rawURL = lit "github." ++ match2 m
  /\ IsKnownHost rawURL = true
  /\ (Parse rawURL = []
      \/ exists repo,
           repo <> [] /\ ~ In "/" repo
           /\ Parse rawURL
              = lit "https://github.com/" ++ match1 m ++ lit "/" ++ repo).
Proof.
  intros Hm.
  assert (Hne : Clean rawURL <> [])
    by (intros E; rewrite E in Hm; discriminate).
  assert (EH : ExtractHost rawURL = lit "github." ++ match2 m).
  { unfold ExtractHost. apply is_empty_false in Hne. now rewrite Hne, Hm. }
  pose proof (reGroup_shape _ _ Hm) as Sh.
  destruct (reShape_host _ _ Sh) as (x & sl & rest & Hs & H0 & _ & Hf & _).
  destruct Sh as (g & sl' & rest' & _ & _ & _ & Ht & Hu & _).
  assert (EC : canonicalizeHost (lit "github." ++ match2 m)
               = (lit "https://github.com", ToLower (lit "github." ++ match2 m))).
  { unfold canonicalizeHost, canonicalizeHostIn. rewrite ToLower_app.
    destruct Ht as [Ht|[Ht|[Ht|[]]]]; rewrite <- Ht; reflexivity. }
  assert (EK : IsKnownHost rawURL = true).
  { rewrite IsKnownHost_iff_canonical_base, EH, EC. reflexivity. }
  split; [exact EH|]. split; [exact EK|].
  destruct (is_empty (Parse rawURL)) eqn:Ep;
    [left; now apply is_empty_true|].
  right. apply is_empty_false in Ep.
  assert (Eo : ExtractOwnerRepo rawURL <> []).
  { intros E. apply Ep. now apply Parse_no_owner_repo. }
  destruct (ExtractOwnerRepo_shape _ Eo)
    as (o & r & tail & EO & EP & Ho & Hr & Hso & Hsr).
  assert (Eu : o = match1 m).
  { unfold ExtractPath in EP. apply is_empty_false in Hne.
    rewrite Hne, Hm in EP.
    destruct (negb (is_empty (githubioRe_ReplaceAllString_empty (Clean rawURL))));
      [|now destruct o].
    unlit. cbn [app] in EP. symmetry in EP.
    assert (Hsu : ~ In "/" (match1 m)).
    { intros Hin. rewrite Forall_forall in Hf. apply Hf in Hin. discriminate. }
    now destruct (first_split_unique _ _ _ _ _ EP Hso Hsu). }
  exists r. split; [assumption|]. split; [assumption|].
  unfold Parse. apply is_empty_false in Eo. rewrite Eo, EH, EC, EO, Eu.
  reflexivity.
Qed.

Lemma Parse_github_pages_witness :
  ExtractHost (lit "https://foo.github.io/bar") = lit "github." ++ lit "io"
  /\ IsKnownHost (lit "https://foo.github.io/bar") = true.
Proof.
  assert (H : githubioRe_FindStringSubmatch (Clean (lit "https://foo.github.io/bar"))
              = Some (mkSubmatch (lit "foo.github.io/") (lit "foo") (lit "io")))
    by (vm_compute; reflexivity).
  pose proof (Parse_github_pages _ _ H) as K. cbn [match2] in K.
  split; apply K.
Defined.

(** ** [ExtractOwnerRepo] and [ParseURL] *)

(** X16.  A non-empty result of [ExtractOwnerRepo] is the first two
    segments of [ExtractPath]: the path is that result, alone or followed
    by [/] and the deeper segments. *)
Theorem ExtractOwnerRepo_first_two_segments (rawURL : str) :
  ExtractOwnerRepo rawURL <> [] ->
  exists owner repo tail,
    ExtractOwnerRepo rawURL = owner ++ lit "/" ++ repo
    /\ owner <> [] /\ repo <> [] /\ ~ In "/" owner /\ ~ In "/" repo
    /\ ExtractPath rawURL = ExtractOwnerRepo rawURL ++ tail
    /\ (tail = [] \/ HasPrefix tail (lit "/") = true).
Proof.
  unfold ExtractOwnerRepo. set (path := ExtractPath rawURL). unlit.
  destruct (is_empty path); [congruence|].
  destruct (Index path ["/"]) as [i|] eqn:Ei; [|congruence].
  destruct (Index_char_Some _ _ _ Ei) as (Hp & Hown & _).
  set (owner := firstn i path) in *. set (rest := skipn (i + 1) path) in *.
  destruct (is_empty owner) eqn:Eo; [simpl; congruence|].
  destruct (is_empty rest) eqn:Er; [simpl; congruence|]. simpl.
  apply is_empty_false in Eo, Er.
  destruct (Index rest ["/"]) as [j|] eqn:Ej.
  - destruct (Index_char_Some _ _ _ Ej) as (Hr & Hrepo & _).
    destruct (is_empty (firstn j rest)) eqn:Ere; [congruence|]. intros _.
    apply is_empty_false in Ere.
    exists owner, (firstn j rest), ("/" :: skipn (j + 1) rest).
    repeat split; try assumption; [|now right].
    rewrite <- app_assoc. cbn [app]. now rewrite <- Hr.
  - apply Index_char_None in Ej.
    destruct (is_empty rest) eqn:Ere; [congruence|]. intros _.
    exists owner, rest, []. rewrite app_nil_r.
    repeat split; try assumption. now left.
Qed.

Lemma ExtractOwnerRepo_first_two_segments_witness :
  exists owner repo tail,
    ExtractOwnerRepo (lit "https://github.com/owner/repo/tree/main")
    = owner ++ lit "/" ++ repo
    /\ owner <> [] /\ repo <> [] /\ ~ In "/" owner /\ ~ In "/" repo
    /\ ExtractPath (lit "https://github.com/owner/repo/tree/main")
       = ExtractOwnerRepo (lit "https://github.com/owner/repo/tree/main") ++ tail
    /\ (tail = [] \/ HasPrefix tail (lit "/") = true).
Proof.
  apply ExtractOwnerRepo_first_two_segments. vm_compute. discriminate.
Defined.

(** X17.  [ParseURL] takes the result of [ExtractOwnerRepo] apart and
    [OwnerRepo] puts it together again: for every input, [OwnerRepo] of
    the result of [ParseURL] is the result of [ExtractOwnerRepo], the
    result is nil exactly when that is empty, and its [Host] is the
    result of [ExtractHost]. *)
Theorem ParseURL_OwnerRepo_round_trip (rawURL : str) :
  RepoURL_OwnerRepo (ParseURL rawURL) = ExtractOwnerRepo rawURL
  /\ (ParseURL rawURL = None <-> ExtractOwnerRepo rawURL = [])
  /\ (forall r, ParseURL rawURL = Some r -> Host r = ExtractHost rawURL).
Proof.
  destruct (is_empty (ExtractOwnerRepo rawURL)) eqn:E.
  - assert (N : ParseURL rawURL = None) by (unfold ParseURL; now rewrite E).
    apply is_empty_true in E. rewrite N, E. repeat split; congruence.
  - apply is_empty_false in E. destruct (ParseURL_Some _ E) as [r Hr].
    destruct (ParseURL_fields _ _ Hr) as (H1 & H2 & _).
    rewrite Hr. split; [|split].
    + simpl. now rewrite H2.
    + split; congruence.
    + now intros r' [= <-].
Qed.

Lemma ParseURL_OwnerRepo_round_trip_witness :
  Host (mkRepoURL (lit "gitlab.com") (lit "owner") (lit "repo"))
  = ExtractHost (lit "git@gitlab.com:owner/repo.git").
Proof.
  apply (proj2 (proj2 (ParseURL_OwnerRepo_round_trip
                         (lit "git@gitlab.com:owner/repo.git")))).
  vm_compute. reflexivity.
Defined.

Lemma ParseURL_agrees_with_host_witness :
  (ParseURL (lit "https://github.com/owner/repo") = None
   <-> Parse (lit "https://github.com/owner/repo") = [])
  /\ RepoURL_String (ParseURL (lit "https://github.com/owner/repo"))
     = Parse (lit "https://github.com/owner/repo").
Proof.
  apply ParseURL_agrees_with_host. vm_compute. discriminate.
Defined.

(** ** [FirstRepoURL] and [ParseFromMap] *)

Lemma Parse_empty : Parse [] = [].
Proof. reflexivity. Qed.

(** X18.  [FirstRepoURL] returns the result of [Parse] for the first entry
    that parses, and the empty string exactly when no entry parses. *)
Theorem FirstRepoURL_first_success (urls : list str) :
  (FirstRepoURL urls = [] <-> forall u, In u urls -> Parse u = [])
  /\ (forall before u after,
         urls = before ++ u :: after ->
         (forall b, In b before -> Parse b = []) ->
         Parse u <> [] ->
         FirstRepoURL urls = Parse u).
Proof.
  split.
  - induction urls as [|u urls IH]; [simpl; tauto|]. simpl.
    destruct (is_empty u) eqn:Eu.
    + apply is_empty_true in Eu. subst u. rewrite IH. split.
      * intros H v [<-|Hv]; [apply Parse_empty | now apply H].
      * intros H v Hv. apply H. now right.
    + destruct (is_empty (Parse u)) eqn:Ep; simpl.
      * apply is_empty_true in Ep. rewrite IH. split.
        -- intros H v [<-|Hv]; [assumption | now apply H].
        -- intros H v Hv. apply H. now right.
      * apply is_empty_false in Ep. split; [congruence|].
        intros H. exfalso. apply Ep. apply H. now left.
  - intros before u after -> Hb Hu.
    induction before as [|b before IH]; simpl.
    + destruct (is_empty u) eqn:Eu.
      * apply is_empty_true in Eu. subst u. now rewrite Parse_empty in Hu.
      * apply is_empty_false in Hu. now rewrite Hu.
    + assert (Eb : Parse b = []) by (apply Hb; now left).
      rewrite Eb. simpl. destruct (is_empty b); apply IH;
        intros x Hx; apply Hb; now right.
Qed.

Lemma FirstRepoURL_first_success_witness :
  FirstRepoURL ([[]; lit "not a url"] ++ lit "https://github.com/a/b" :: [])
  = Parse (lit "https://github.com/a/b").
Proof.
  apply (proj2 (FirstRepoURL_first_success _)
           [[]; lit "not a url"] (lit "https://github.com/a/b") [] eq_refl).
  - intros b [<-|[<-|[]]]; vm_compute; reflexivity.
  - vm_compute. discriminate.
Defined.

Lemma parsePriority_first (m : list (str * str)) (before after : list str)
      (key val : str) :
  (forall k v, In k before -> map_get m k = Some v -> Parse v = []) ->
  map_get m key = Some val -> Parse val <> [] ->
  parsePriority m (before ++ key :: after) = Some (Parse val).
Proof.
  intros Hb Hg Hp. induction before as [|b before IH]; simpl.
  - rewrite Hg. apply is_empty_false in Hp. rewrite Hp.
    destruct val; [now rewrite Parse_empty in Hp | reflexivity].
  - assert (IH' : parsePriority m (before ++ key :: after) = Some (Parse val))
      by (apply IH; intros k v Hk; apply Hb; now right).
    destruct (map_get m b) as [v|] eqn:Eg; [|exact IH'].
    rewrite (Hb b v (or_introl eq_refl) Eg). simpl.
    now rewrite andb_false_r.
Qed.

Lemma parsePriority_origin (m : list (str * str)) (keys : list str) (res : str) :
  parsePriority m keys = Some res ->
  res <> [] /\ exists key val, In key keys /\ In (key, val) m /\ res = Parse val.
Proof.
  induction keys as [|key keys IH]; [discriminate|]. simpl.
  destruct (map_get m key) as [val|] eqn:Eg.
  - destruct (negb (is_empty val) && negb (is_empty (Parse val))) eqn:E.
    + intros [= <-]. apply andb_true_iff in E as [_ E].
      apply negb_true_iff, is_empty_false in E. split; [assumption|].
      exists key, val. apply map_get_Some_In in Eg. auto.
    + intros H. destruct (IH H) as (Hr & k & v & Hk & Hv & E').
      split; [assumption|]. exists k, v. auto.
  - intros H. destruct (IH H) as (Hr & k & v & Hk & Hv & E').
    split; [assumption|]. exists k, v. auto.
Qed.

(** X19.  In [ParseFromMap] the first priority key whose value parses
    decides the result, whatever the other fields hold and whether or not
    the value contains [/sponsors]: the exclusion belongs to the fallback
    scan alone. *)
Theorem ParseFromMap_priority_key_wins
  (m : list (str * str)) (priorityKeys before after : list str)
  (key val : str) :
  effectiveKeys priorityKeys = before ++ key :: after ->
  (forall k v, In k before -> map_get m k = Some v -> Parse v = []) ->
  map_get m key = Some val -> Parse val <> [] ->
  ParseFromMap m priorityKeys = Parse val.
Proof.
  intros Hk Hb Hg Hp. unfold ParseFromMap. fold (effectiveKeys priorityKeys).
  now rewrite Hk, (parsePriority_first m before after key val Hb Hg Hp).
Qed.

Lemma ParseFromMap_priority_key_wins_witness :
  ParseFromMap [(lit "homepage", lit "https://github.com/a/b");
                (lit "repository", lit "https://github.com/sponsors/foo")] []
  = Parse (lit "https://github.com/sponsors/foo").
Proof.
  apply (ParseFromMap_priority_key_wins _ [] []
           (map lit ["Repository"; "source"; "Source"; "source_code";
                     "Source Code"; "Code"]%string)
           (lit "repository") (lit "https://github.com/sponsors/foo")).
  - vm_compute. reflexivity.
  - intros k v [].
  - vm_compute. reflexivity.
  - vm_compute. discriminate.
Defined.

(** X20.  [ParseFromMap] invents nothing: its result is the empty string
    or the non-empty result of [Parse] for a value of the map, and it is
    the empty string when no value of the map parses. *)
Theorem ParseFromMap_result_origin
  (m : list (str * str)) (priorityKeys : list str) :
  (ParseFromMap m priorityKeys = []
   \/ exists key val,
        In (key, val) m /\ Parse val <> []
        /\ ParseFromMap m priorityKeys = Parse val)
  /\ ((forall key val, In (key, val) m -> Parse val = []) ->
      ParseFromMap m priorityKeys = []).
Proof.
  unfold ParseFromMap. fold (effectiveKeys priorityKeys).
  destruct (parsePriority m (effectiveKeys priorityKeys)) as [res|] eqn:E.
  - apply parsePriority_origin in E as (Hr & k & v & _ & Hv & ->).
    split.
    + right. exists k, v. auto.
    + intros H. exfalso. apply Hr. now apply (H k v).
  - split.
    + destruct (is_empty (parseFallback m)) eqn:Ef;
        [left; now apply is_empty_true|].
      apply is_empty_false in Ef.
      destruct (parseFallback_origin m) as [H|(k & v & Hin & _ & Hr)];
        [congruence|].
      right. exists k, v. rewrite <- Hr. auto.
    + intros H. apply parseFallback_all_sponsors.
      intros k v Hin Hp. exfalso. apply Hp. now apply (H k v).
Qed.

Lemma ParseFromMap_result_origin_witness :
  ParseFromMap [(lit "homepage", lit "https://example.com")] [] = [].
Proof.
  apply (proj2 (ParseFromMap_result_origin _ _)).
  intros key val [[= <- <-]|[]]. vm_compute. reflexivity.
Defined.

(** ** Package core: [ExtractRepoURL] *)

Lemma repoURLFromStrings_FirstRepoURL (l : list str) :
  repoURLFromStrings l = FirstRepoURL l.
Proof.
  induction l as [|u l IH]; [reflexivity|]. simpl. rewrite IH.
  destruct (is_empty u) eqn:Eu; [|reflexivity].
  apply is_empty_true in Eu. subst u. now rewrite Parse_empty.
Qed.

Lemma extractRepoURL_array (l : list value) :
  extractRepoURL (VArray l) = ExtractRepoURLWithFallback l.
Proof.
  induction l as [|v l IH]; [reflexivity|].
  simpl in *. unfold ExtractRepoURL. now rewrite IH.
Qed.

Lemma repoURLFromKeys_origin (r : list (str * value)) (keys : list str) :
  repoURLFromKeys r keys = []
  \/ exists key s,
       In key keys /\ map_get r key = Some (VString s) /\ Parse s <> []
       /\ repoURLFromKeys r keys = Parse s.
Proof.
  induction keys as [|key keys IH]; [now left|]. simpl.
  assert (IH' : repoURLFromKeys r keys = []
                \/ exists k s,
                     In k (key :: keys) /\ map_get r k = Some (VString s)
                     /\ Parse s <> [] /\ repoURLFromKeys r keys = Parse s).
  { destruct IH as [IH|(k & s & Hk & Hg & Hp & E)]; [now left|].
    right. exists k, s. simpl. auto. }
  destruct (map_get r key) as [[|url| | | |]|] eqn:Eg; try exact IH'.
  destruct (negb (is_empty url) && negb (is_empty (Parse url))) eqn:E;
    [|exact IH'].
  apply andb_true_iff in E as [_ E]. apply negb_true_iff, is_empty_false in E.
  right. exists key, url. simpl. auto.
Qed.

Lemma repoURLFromStrings_origin (l : list str) :
  repoURLFromStrings l = []
  \/ exists s, In s l /\ Parse s <> [] /\ repoURLFromStrings l = Parse s.
Proof.
  induction l as [|u l IH]; [now left|]. simpl.
  destruct (is_empty (Parse u)) eqn:E; simpl.
  - destruct IH as [IH|(s & Hs & Hp & Hr)]; [now left|].
    right. exists s. auto.
  - apply is_empty_false in E. right. exists u. auto.
Qed.

(** X21.  [ExtractRepoURL] returns the empty string or a non-empty result
    of [Parse], whatever the shape of the value: nil and values of other
    types give the empty string, and every other result comes from a
    string given to [Parse]. *)
Theorem ExtractRepoURL_result_origin (v : value) :
  ExtractRepoURL VNil = [] /\ ExtractRepoURL VOther = []
  /\ (ExtractRepoURL v = []
      \/ exists s, Parse s <> [] /\ ExtractRepoURL v = Parse s).
Proof.
  split; [reflexivity|]. split; [reflexivity|].
  unfold ExtractRepoURL. revert v. fix IH 1. intros [|s|r|r|r|].
  - now left.
  - simpl. destruct (is_empty (Parse s)) eqn:E.
    + left. now apply is_empty_true.
    + right. exists s. apply is_empty_false in E. auto.
  - simpl. destruct (repoURLFromKeys_origin r repoURLKeys)
      as [H|(k & s & _ & _ & Hp & H)]; [now left|].
    right. now exists s.
  - induction r as [|item r IHr]; [now left|].
    change (extractRepoURL (VArray (item :: r)))
      with (if negb (is_empty (extractRepoURL item))
            then extractRepoURL item else extractRepoURL (VArray r)).
    destruct (is_empty (extractRepoURL item)) eqn:E; [exact IHr|].
    apply is_empty_false in E. cbn [negb].
    destruct (IH item) as [H|H]; [congruence | now right].
  - simpl. destruct (repoURLFromStrings_origin r) as [H|(s & _ & Hp & H)];
      [now left|].
    right. now exists s.
  - now left.
Qed.

(** X22.  A list of strings, whether [[]string] or [[]interface{}] holding
    strings, is handled as [FirstRepoURL] handles it. *)
Theorem ExtractRepoURL_string_lists (l : list str) :
  ExtractRepoURL (VStrings l) = FirstRepoURL l
  /\ ExtractRepoURL (VArray (map VString l)) = FirstRepoURL l.
Proof.
  split; [apply repoURLFromStrings_FirstRepoURL|].
  unfold ExtractRepoURL. rewrite <- repoURLFromStrings_FirstRepoURL.
  induction l as [|u l IH]; [reflexivity|].
  change (extractRepoURL (VArray (map VString (u :: l))))
    with (if negb (is_empty (Parse u))
          then Parse u else extractRepoURL (VArray (map VString l))).
  now rewrite IH.
Qed.

Lemma repoURLFromKeys_first (r : list (str * value)) (before after : list str)
      (key u : str) :
  (forall k s, In k before -> map_get r k = Some (VString s) -> Parse s = []) ->
  map_get r key = Some (VString u) -> Parse u <> [] ->
  repoURLFromKeys r (before ++ key :: after) = Parse u.
Proof.
  intros Hb Hg Hp. induction before as [|b before IH]; simpl.
  - rewrite Hg. apply is_empty_false in Hp. rewrite Hp.
    destruct u; [now rewrite Parse_empty in Hp | reflexivity].
  - assert (IH' : repoURLFromKeys r (before ++ key :: after) = Parse u)
      by (apply IH; intros k s Hk; apply Hb; now right).
    destruct (map_get r b) as [[|s| | | |]|] eqn:Eg; try exact IH'.
    rewrite (Hb b s (or_introl eq_refl) Eg). simpl.
    now rewrite andb_false_r.
Qed.

(** X23.  For a map, [ExtractRepoURL] looks at the keys [url], [git] and
    [http] in that order and only at strings stored under them: the first
    of these strings that parses decides the result, and without one the
    result is empty, whatever else the map holds. *)
Theorem ExtractRepoURL_map_keys (r : list (str * value)) :
  (forall before key after u,
      repoURLKeys = before ++ key :: after ->
      (forall k s, In k before -> map_get r k = Some (VString s) ->
                   Parse s = []) ->
      map_get r key = Some (VString u) -> Parse u <> [] ->
      ExtractRepoURL (VMap r) = Parse u)
  /\ ((forall key s, In key repoURLKeys -> map_get r key = Some (VString s) ->
                     Parse s = []) ->
      ExtractRepoURL (VMap r) = []).
Proof.
  split.
  - intros before key after u Hk Hb Hg Hp. unfold ExtractRepoURL.
    change (extractRepoURL (VMap r)) with (repoURLFromKeys r repoURLKeys).
    rewrite Hk. now apply repoURLFromKeys_first.
  - intros H. unfold ExtractRepoURL.
    change (extractRepoURL (VMap r)) with (repoURLFromKeys r repoURLKeys).
    destruct (repoURLFromKeys_origin r repoURLKeys)
      as [E|(k & s & Hk & Hg & Hp & _)]; [exact E|].
    exfalso. apply Hp. now apply (H k s).
Qed.

Lemma ExtractRepoURL_map_keys_witness :
  ExtractRepoURL
    (VMap [(lit "type", VString (lit "git"));
           (lit "http", VString (lit "https://github.com/x/y"));
           (lit "url", VArray [VString (lit "https://github.com/p/q")]);
           (lit "git", VString (lit "git@github.com:a/b.git"))])
  = Parse (lit "git@github.com:a/b.git").
Proof.
  apply (proj1 (ExtractRepoURL_map_keys _) [lit "url"] (lit "git") [lit "http"]).
  - reflexivity.
  - intros k s [<-|[]] H. vm_compute in H. discriminate.
  - vm_compute. reflexivity.
  - vm_compute. discriminate.
Defined.

(** X24.  [ExtractRepoURLWithFallback] returns the result of
    [ExtractRepoURL] for the first value that has one: it handles its
    values as [ExtractRepoURL] handles an array of them, and it returns
    the empty string exactly when every value gives the empty string. *)
Theorem ExtractRepoURLWithFallback_first_success (values : list value) :
  ExtractRepoURLWithFallback values = ExtractRepoURL (VArray values)
  /\ (ExtractRepoURLWithFallback values = []
      <-> forall v, In v values -> ExtractRepoURL v = [])
  /\ (forall before v after,
         values = before ++ v :: after ->
         (forall b, In b before -> ExtractRepoURL b = []) ->
         ExtractRepoURL v <> [] ->
         ExtractRepoURLWithFallback values = ExtractRepoURL v).
Proof.
  split; [symmetry; apply extractRepoURL_array|]. split.
  - induction values as [|v values IH]; [simpl; tauto|]. simpl.
    destruct (is_empty (ExtractRepoURL v)) eqn:E; simpl.
    + apply is_empty_true in E. rewrite IH. split.
      * intros H x [<-|Hx]; [assumption | now apply H].
      * intros H x Hx. apply H. now right.
    + apply is_empty_false in E. split; [congruence|].
      intros H. exfalso. apply E. apply H. now left.
  - intros before v after -> Hb Hv.
    induction before as [|b before IH]; simpl.
    + apply is_empty_false in Hv. now rewrite Hv.
    + rewrite (Hb b (or_introl eq_refl)). simpl. apply IH.
      intros x Hx. apply Hb. now right.
Qed.

Lemma ExtractRepoURLWithFallback_first_success_witness :
  ExtractRepoURLWithFallback
    ([VNil; VString (lit "https://example.com")]
       ++ VStrings [lit "git@github.com:a/b.git"] :: [VOther])
  = ExtractRepoURL (VStrings [lit "git@github.com:a/b.git"]).
Proof.
  apply (proj2 (proj2 (ExtractRepoURLWithFallback_first_success _))
           [VNil; VString (lit "https://example.com")]
           (VStrings [lit "git@github.com:a/b.git"]) [VOther] eq_refl).
  - intros b [<-|[<-|[]]]; vm_compute; reflexivity.
  - vm_compute. discriminate.
Defined.

(** ** [normalizeColonSeparator] *)

(** X25.  After a host without [:], [normalizeColonSeparator] turns the
    colon of [host:path] into [/], and keeps it when a digit (a port) or a
    [/] follows. *)
Theorem normalizeColonSeparator_scp_or_port (host path : str) :
  ~ In ":" host ->
  (match path with
   | c :: _ => Ascii.eqb c "/" || isDigit c = false
   | [] => True
   end ->
   normalizeColonSeparator (host ++ ":" :: path) = host ++ "/" :: path)
  /\ (match path with
      | c :: _ => Ascii.eqb c "/" || isDigit c = true
      | [] => False
      end ->
      normalizeColonSeparator (host ++ ":" :: path) = host ++ ":" :: path).
Proof.
  intros H. unfold normalizeColonSeparator. unlit.
  rewrite Index_char_app by assumption.
  rewrite skipn_app_exact, firstn_app_exact.
  split; destruct path as [|c path]; try tauto; intros E.
  - apply orb_false_iff in E as [E1 E2]. now rewrite E1, E2.
  - apply orb_true_iff in E as [E|E]; rewrite E; [reflexivity|].
    now destruct (Ascii.eqb c "/").
Qed.

Lemma normalizeColonSeparator_scp_or_port_witness :
  normalizeColonSeparator (lit "github.com" ++ ":" :: lit "owner/repo")
  = lit "github.com" ++ "/" :: lit "owner/repo"
  /\ normalizeColonSeparator (lit "example.com" ++ ":" :: lit "8080/owner/repo")
     = lit "example.com" ++ ":" :: lit "8080/owner/repo".
Proof.
  split.
  - apply (proj1 (normalizeColonSeparator_scp_or_port
                    (lit "github.com") (lit "owner/repo")
                    ltac:(intros H; apply Contains_char_true in H;
                          vm_compute in H; discriminate))).
    vm_compute. reflexivity.
  - apply (proj2 (normalizeColonSeparator_scp_or_port
                    (lit "example.com") (lit "8080/owner/repo")
                    ltac:(intros H; apply Contains_char_true in H;
                          vm_compute in H; discriminate))).
    vm_compute. reflexivity.
Defined.

(** ** Canonical URLs of known hosts *)




(** ** Edges of the extractor *)

Lemma Contains_suffix (a b p : str) :
  Contains (a ++ b) p = false -> Contains b p = false.
Proof.
  intros H. destruct (Contains b p) eqn:E; [|reflexivity].
  rewrite <- H. symmetry. apply Contains_spec in E as (x & y & ->).
  apply Contains_spec. exists (a ++ x), y. now rewrite app_assoc.
Qed.

Lemma after_slash_tidy (a b : str) :
  Contains (a ++ "/" :: b) (lit "//") = false ->
  HasPrefix b (lit "/") = false /\ Contains b (lit "//") = false.
Proof.
  intros H. apply Contains_suffix in H. rewrite Contains_cons in H.
  apply orb_false_iff in H as [H1 H2]. split; [|exact H2].
  unlit. cbn [HasPrefix] in H1. destruct b as [|c b]; [reflexivity|].
  cbn [HasPrefix] in *. now rewrite andb_true_r in *.
Qed.

(** X27.  The host [ExtractHost] returns has no [/]; the path
    [ExtractPath] returns does not begin with [/] and has no [//]. *)
Theorem extractor_results_tidy (rawURL : str) :
  ~ In "/" (ExtractHost rawURL)
  /\ HasPrefix (ExtractPath rawURL) (lit "/") = false
  /\ Contains (ExtractPath rawURL) (lit "//") = false.
Proof.
  split.
  - destruct (ExtractHost_cases rawURL) as [E|[(tld & Ht & E)|[H _]]].
    + rewrite E. tauto.
    + rewrite E. intros Hin.
      apply (ToLower_In _ "/" eq_refl) in Hin. rewrite ToLower_app in Hin.
      destruct Ht as [Ht|[Ht|[Ht|[]]]]; rewrite <- Ht in Hin;
        apply Contains_char_true in Hin; discriminate.
    + exact H.
  - pose proof (Clean_no_double_slash rawURL) as D. unfold ExtractPath.
    set (s := Clean rawURL) in *.
    destruct (is_empty s); [split; reflexivity|].
    destruct (githubioRe_FindStringSubmatch s) as [m|] eqn:Em.
    + unfold githubioRe_ReplaceAllString_empty. rewrite Em.
      pose proof (reGroup_shape _ _ Em) as Sh.
      destruct (reShape_host _ _ Sh) as (x & sl & rest & Hs & H0 & _ & Hf & _ & Hsl).
      destruct Sh as (_ & _ & _ & _ & _ & _ & _ & Hne & _).
      assert (Er : skipn (length (match0 m)) s = rest).
      { rewrite Hs, H0, app_assoc, skipn_app, skipn_all, Nat.sub_diag.
        reflexivity. }
      rewrite Er. destruct rest as [|r0 rest]; [split; reflexivity|].
      cbn [is_empty negb]. destruct Hsl as [[_ F]| ->]; [discriminate|].
      rewrite Hs in D. destruct (after_slash_tidy _ _ D) as [D1 D2].
      assert (Hsu : ~ In "/" (match1 m)).
      { intros Hin. rewrite Forall_forall in Hf. apply Hf in Hin.
        discriminate. }
      split; [now apply HasPrefix_slash_false|].
      unlit. cbn [app]. rewrite Contains_skip_no_slash by assumption.
      rewrite Contains_cons. apply orb_false_iff. split; [|exact D2].
      unlit. cbn [HasPrefix] in D1. exact D1.
    + unlit. destruct (Index s ["/"]) as [i|] eqn:Ei; [|split; reflexivity].
      destruct (i =? length s - 1); [split; reflexivity|].
      apply Index_char_Some in Ei as (Hs & _ & _). rewrite Hs in D.
      destruct (after_slash_tidy _ _ D) as [D1 D2].
      rewrite collapseSlashes_id by assumption. split; assumption.
Qed.
